(** * Object placement on a supporting plane (strands_morse)

    A shallow embedding of [src/strand_morse/object_placement.py]: bounding
    boxes, the anchor grid, the containment and collision tests, the
    distance ranges of the directional relations and the two
    rejection-sampling loops ([RootNode.place_objects] and
    [ObjectNode.place_children]); and of the two functions of
    [src/strand_morse/tufts_scene_loader.py] that compute,
    [quaternion_multiply] and [obj_name].

    Modelling conventions.
    - Python floats are modelled by the real numbers [R]: arithmetic is
      exact, there is no rounding, no infinity and no NaN.  [math.sqrt],
      [math.sin], [math.cos] and [math.pi] are [sqrt], [sin], [cos], [PI].
    - Python exceptions are modelled by the type [exn]; a computation that
      may raise returns a [result].
    - The mutable objects reached from a root node, the simulator behind
      [morse.rpc] and the state of the module [random] are threaded through
      the state-and-exception monad [M] as one [World].
    - The simulator and the random number generator are not part of the
      repository; they enter as an [Environment], two state machines the
      placement code is parameterised by. *)

From Stdlib Require Import Reals Lra Lia List Ascii String Bool Arith Permutation ZArith.
Import ListNotations.

Open Scope string_scope.
Open Scope R_scope.

(** ** Exceptions and results *)

(** The exceptions the modelled code can raise: [IndexError] (indexing a
    list out of range), [KeyError] (a missing dictionary key) and the
    module's own [PlacementException], which carries a message. *)
Inductive exn : Type :=
| IndexError
| KeyError (key : string)
| PlacementException (msg : string).

(** The name of the Python class of an exception. *)
Definition exn_class (e : exn) : string :=
  match e with
  | IndexError => "IndexError"
  | KeyError _ => "KeyError"
  | PlacementException _ => "PlacementException"
  end.

Inductive result (A : Type) : Type :=
| Ok (v : A)
| Raise (e : exn).
Arguments Ok {A} v.
Arguments Raise {A} e.

Definition rbind {A B : Type} (r : result A) (k : A -> result B) : result B :=
  match r with
  | Ok v => k v
  | Raise e => Raise e
  end.

Declare Scope result_scope.
Delimit Scope result_scope with res.
Notation "x <- r ;; k" := (rbind r (fun x => k))
  (at level 61, r at next level, right associativity) : result_scope.

(** ** Comparisons of floats as booleans *)

Definition Rltb (a b : R) : bool := if Rlt_dec a b then true else false.
Definition Rleb (a b : R) : bool := if Rle_dec a b then true else false.
Definition Rgtb (a b : R) : bool := Rltb b a.
Definition Rgeb (a b : R) : bool := Rleb b a.

(** ** Lists and dictionaries *)

(** [l[i]] for a non-negative index. *)
Definition getitem {A : Type} (l : list A) (i : nat) : result A :=
  match nth_error l i with
  | Some v => Ok v
  | None => Raise IndexError
  end.

(** [operator.itemgetter(k)] applied to a point given as a list. *)
Definition itemgetter (k : nat) (p : list R) : result R := getitem p k.

(** A dictionary with string keys, in insertion order. *)
Definition dict (V : Type) : Type := list (string * V).

Definition keys {V : Type} (d : dict V) : list string := map fst d.

Fixpoint dict_find {V : Type} (d : dict V) (k : string) : option V :=
  match d with
  | [] => None
  | (k', v) :: d' => if String.eqb k k' then Some v else dict_find d' k
  end.

(** [d[k]] *)
Definition dict_get {V : Type} (d : dict V) (k : string) : result V :=
  match dict_find d k with
  | Some v => Ok v
  | None => Raise (KeyError k)
  end.

(** [d[k] = v]: an existing key keeps its place, a new key goes last. *)
Fixpoint dict_set {V : Type} (d : dict V) (k : string) (v : V) : dict V :=
  match d with
  | [] => [(k, v)]
  | (k', v') :: d' =>
      if String.eqb k k' then (k', v) :: d' else (k', v') :: dict_set d' k v
  end.

(** ** Module constants *)

Definition MAX_NUM_OF_SAMPLES : nat := 100.
Definition Z_DIST : R := 5 / 1000.
Definition XY_DIST : R := 2 / 100.
Definition DIRECTION_SIGMA : R := PI / 16.
Definition OBJECT_SCALE : R := 1.
(** [numpy.finfo(float).eps * 4.0], with [eps = 2^-52]. *)
Definition _EPS : R := / (2 ^ 52) * 4.

(** ** Bounding boxes *)

(** The bounding box as the simulator sends it: a list of points, each a
    list of coordinates. *)
Definition json_bbox : Type := list (list R).

Record BBox : Type := mkBBox {
  x_min : R; x_max : R;
  y_min : R; y_max : R;
  z_min : R; z_max : R
}.

(** Stable insertion into a list sorted by key. *)
Fixpoint insert_by_key (kp : R * list R) (l : list (R * list R))
  : list (R * list R) :=
  match l with
  | [] => [kp]
  | kq :: l' =>
      if Rle_dec (fst kp) (fst kq) then kp :: kq :: l'
      else kq :: insert_by_key kp l'
  end.

Fixpoint sort_by_key (l : list (R * list R)) : list (R * list R) :=
  match l with
  | [] => []
  | kp :: l' => insert_by_key kp (sort_by_key l')
  end.

(** The keys of all the points, in order; the first missing coordinate
    raises. *)
Fixpoint keyed (k : nat) (l : json_bbox) : result (list (R * list R)) :=
  match l with
  | [] => Ok []
  | p :: l' =>
      (v <- itemgetter k p ;;
       r <- keyed k l' ;;
       Ok ((v, p) :: r))%res
  end.

(** [sorted(bbox, key=itemgetter(k))] *)
Definition sorted (k : nat) (bbox : json_bbox) : result json_bbox :=
  (kl <- keyed k bbox ;; Ok (map snd (sort_by_key kl)))%res.

(** [x_sorted[i][k]] *)
Definition item2 (l : json_bbox) (i k : nat) : result R :=
  (p <- getitem l i ;; getitem p k)%res.

(** [BBox.__init__] *)
Definition BBox_init (bbox : json_bbox) : result BBox :=
  (x_sorted <- sorted 0 bbox ;;
   xmin <- item2 x_sorted 0 0 ;;
   xmax <- item2 x_sorted 7 0 ;;
   y_sorted <- sorted 1 bbox ;;
   ymin <- item2 y_sorted 0 1 ;;
   ymax <- item2 y_sorted 7 1 ;;
   z_sorted <- sorted 2 bbox ;;
   zmin <- item2 z_sorted 0 2 ;;
   zmax <- item2 z_sorted 7 2 ;;
   Ok (mkBBox xmin xmax ymin ymax zmin zmax))%res.

Definition get_x_min (b : BBox) : R := x_min b.
Definition get_x_max (b : BBox) : R := x_max b.
Definition get_y_min (b : BBox) : R := y_min b.
Definition get_y_max (b : BBox) : R := y_max b.
Definition get_z_min (b : BBox) : R := z_min b.
Definition get_z_max (b : BBox) : R := z_max b.

(** ** Nodes *)

(** [AbstractNode]: the name, the local bounding box and what
    [calc_anchors] stores. Anchors are the two-element lists [[x, y]]. *)
Record AbstractNode : Type := mkAbstractNode {
  name : string;
  local_bbox : BBox;
  x_sigma : R;
  y_sigma : R;
  north : R * R;
  north_east : R * R;
  east : R * R;
  south_east : R * R;
  south : R * R;
  south_west : R * R;
  west : R * R;
  north_west : R * R;
  center : R * R
}.

(** [AbstractNode.calc_anchors], on the name and the local bounding box
    that [__init__] has set before it. *)
Definition calc_anchors (name : string) (local_bbox : BBox) : AbstractNode :=
  let x := (get_x_max local_bbox - get_x_min local_bbox) / 6 in
  let y := (get_y_max local_bbox - get_y_min local_bbox) / 6 in
  {| name := name;
     local_bbox := local_bbox;
     x_sigma := x * x;
     y_sigma := y * y;
     north      := (get_x_min local_bbox + 1 * x, get_y_min local_bbox + 3 * y);
     north_east := (get_x_min local_bbox + 1 * x, get_y_min local_bbox + 5 * y);
     east       := (get_x_min local_bbox + 3 * x, get_y_min local_bbox + 5 * y);
     south_east := (get_x_min local_bbox + 5 * x, get_y_min local_bbox + 5 * y);
     south      := (get_x_min local_bbox + 5 * x, get_y_min local_bbox + 3 * y);
     south_west := (get_x_min local_bbox + 5 * x, get_y_min local_bbox + 1 * y);
     west       := (get_x_min local_bbox + 3 * x, get_y_min local_bbox + 1 * y);
     north_west := (get_x_min local_bbox + 1 * x, get_y_min local_bbox + 1 * y);
     center     := (get_x_min local_bbox + 3 * x, get_y_min local_bbox + 3 * y) |}.

(** [AbstractNode.get_anchor]. The method has no [raise] and indexes
    nothing: every branch returns. *)
Definition get_anchor (self : AbstractNode) (anchor : string) : result (R * R) :=
  if anchor =? "north" then Ok (north self)
  else if anchor =? "north_east" then Ok (north_east self)
  else if anchor =? "east" then Ok (east self)
  else if anchor =? "south_east" then Ok (south_east self)
  else if anchor =? "south" then Ok (south self)
  else if anchor =? "south_west" then Ok (south_west self)
  else if anchor =? "west" then Ok (west self)
  else if anchor =? "north_west" then Ok (north_west self)
  else Ok (center self).

(** The angles [ObjectNode.init_directions] stores in every object node. *)
Module Direction.
Definition right : R := 0.
Definition right_front : R := PI / 4.
Definition front : R := PI / 2.
Definition left_front : R := 3 * PI / 4.
Definition left : R := PI.
Definition left_back : R := 5 * PI / 4.
Definition back : R := 3 * PI / 2.
Definition right_back : R := 7 * PI / 4.
End Direction.

(** [ObjectNode.get_direction] *)
Definition get_direction (direction : string) : result R :=
  if direction =? "back" then Ok Direction.back
  else if direction =? "right_back" then Ok Direction.right_back
  else if direction =? "right" then Ok Direction.right
  else if direction =? "right_front" then Ok Direction.right_front
  else if direction =? "left_front" then Ok Direction.left_front
  else if direction =? "left" then Ok Direction.left
  else if direction =? "left_back" then Ok Direction.left_back
  else Ok Direction.front.

(** [ObjectNode], as [place_children] finds it. The dictionaries
    [directions] and [distances] are keyed by the child node itself; here
    each entry of [children] carries what the two dictionaries hold for
    that child when the placement runs. The attribute [root] is the one
    root of the [World] below: the nodes are taken after [set_root], which
    [place_objects] and [place_children] call on a node before they use
    it. *)
#[warnings="-register-all"]
Inductive ObjectNode : Type :=
| mkObjectNode (base : AbstractNode) (yaw : R)
               (children : list (ObjectNode * string * string)).

Definition base (n : ObjectNode) : AbstractNode :=
  match n with mkObjectNode b _ _ => b end.
Definition get_yaw (n : ObjectNode) : R :=
  match n with mkObjectNode _ y _ => y end.
Definition children (n : ObjectNode) : list (ObjectNode * string * string) :=
  match n with mkObjectNode _ _ c => c end.

(** [ObjectNode.set_yaw] *)
Definition set_yaw (n : ObjectNode) (yaw : R) : ObjectNode :=
  mkObjectNode (base n) yaw (children n).

(** One recorded scene: its label and the four tables dumped with it. *)
Record Scene : Type := mkScene {
  scene_label : nat;
  scene_objects : list string;
  scene_position : dict (R * R * R);
  scene_orientation : dict (list R);
  scene_bbox : dict json_bbox
}.

(** [RootNode]: the supporting plane, its children, each with what the
    dictionary [anchors] (keyed by the child node) holds for it when the
    placement runs, and the bookkeeping of what has been placed. *)
Record RootNode : Type := mkRootNode {
  root_base : AbstractNode;
  root_children : list (ObjectNode * string);
  scenes : list Scene;
  objects : list string;
  positions : dict (R * R * R);
  orientations : dict (list R);
  global_bboxes : dict BBox;
  global_bboxes_json : dict json_bbox
}.

(** ** The two tests of a candidate *)

(** [RootNode.within_root_bbox(object, x, y)] *)
Definition within_root_bbox (self : RootNode) (object : ObjectNode) (x y : R)
  : bool :=
  let min_xy_dim :=
    Rmin (get_x_max (local_bbox (base object)) - get_x_min (local_bbox (base object)))
         (get_y_max (local_bbox (base object)) - get_y_min (local_bbox (base object)))
    * OBJECT_SCALE in
  if Rltb (get_x_min (local_bbox (root_base self)) + min_xy_dim) x
     && Rltb x (get_x_max (local_bbox (root_base self)) - min_xy_dim)
     && Rltb (get_y_min (local_bbox (root_base self)) + min_xy_dim) y
     && Rltb y (get_y_max (local_bbox (root_base self)) - min_xy_dim)
  then true
  else false.

(** The two-dimensional test inside the loop of [in_collision]. *)
Definition overlaps (x_min x_max y_min y_max : R) (bbox2 : BBox) : bool :=
  Rgeb x_max (get_x_min bbox2)
  && Rleb x_min (get_x_max bbox2)
  && Rgeb y_max (get_y_min bbox2)
  && Rleb y_min (get_y_max bbox2).

(** The [for obj in self.global_bboxes.keys()] loop of [in_collision]. *)
Fixpoint collision_scan (boxes : dict BBox) (ks : list string)
                        (x_min x_max y_min y_max : R) : result bool :=
  match ks with
  | [] => Ok false
  | obj :: ks' =>
      (bbox2 <- dict_get boxes obj ;;
       if overlaps x_min x_max y_min y_max bbox2 then Ok true
       else collision_scan boxes ks' x_min x_max y_min y_max)%res
  end.

(** [RootNode.in_collision(bbox)] *)
Definition in_collision (self : RootNode) (bbox : BBox) : result bool :=
  let x_min := get_x_min bbox in
  let x_max := get_x_max bbox in
  let y_min := get_y_min bbox in
  let y_max := get_y_max bbox in
  collision_scan (global_bboxes self) (keys (global_bboxes self))
                 x_min x_max y_min y_max.

(** ** Quaternions *)

(** [vector_norm(data)] for one-dimensional [data] and no [out]:
    [math.sqrt(numpy.dot(data, data))]. *)
Definition dot (u v : list R) : R :=
  fold_right Rplus 0 (map (fun p => fst p * snd p) (combine u v)).

Definition vector_norm (data : list R) : R := sqrt (dot data data).

(** [quaternion_about_axis(angle, axis)], for an axis given by its three
    components. *)
Definition quaternion_about_axis (angle : R) (axis : R * R * R) : list R :=
  let '(a0, a1, a2) := axis in
  let q := [0; a0; a1; a2] in
  let qlen := vector_norm q in
  let q := if Rgtb qlen _EPS
           then map (fun c => c * (sin (angle / 2) / qlen)) q
           else q in
  cos (angle / 2) :: tl q.

(** ** The simulator, the random numbers and the world *)

(** What lies outside the repository: the simulator reached through
    [morse.rpc] and the generator of the module [random], each a state
    machine of its own. [random] and [normal_variate] are the two draws
    the library builds [uniform] and [gauss] from. *)
Record Environment : Type := mkEnvironment {
  sim : Type;
  get_object_bbox : string -> sim -> json_bbox;
  get_object_global_bbox : string -> sim -> json_bbox;
  get_object_pose : string -> sim -> (R * R * R) * list R;
  set_object_pose : string -> R * R * R -> list R -> sim -> sim;
  transform_to_obj_frame : string -> R * R * R -> sim -> R * R * R;
  rng : Type;
  random : rng -> R * rng;
  normal_variate : rng -> R * rng
}.

Section Placement.

Variable E : Environment.

(** Everything a placement pass reads and writes. *)
Record World : Type := mkWorld {
  morse : sim E;
  rand : rng E;
  root : RootNode
}.

(** State and exceptions: a raised exception keeps the world as it was
    when it was raised. *)
Definition M (A : Type) : Type := World -> result A * World.

Definition ret {A : Type} (v : A) : M A := fun w => (Ok v, w).

Definition raise {A : Type} (e : exn) : M A := fun w => (Raise e, w).

Definition bind {A B : Type} (m : M A) (k : A -> M B) : M B :=
  fun w =>
    match m w with
    | (Ok v, w') => k v w'
    | (Raise e, w') => (Raise e, w')
    end.

Definition lift {A : Type} (r : result A) : M A := fun w => (r, w).

(** [get_root()] of a node whose root has been set. *)
Definition get_root : M RootNode := fun w => (Ok (root w), w).

Definition put_root (r : RootNode) : M unit :=
  fun w => (Ok tt, mkWorld (morse w) (rand w) r).

Definition rpc {A : Type} (f : sim E -> A) : M A :=
  fun w => (Ok (f (morse w)), w).

Definition rpc_set (f : sim E -> sim E) : M unit :=
  fun w => (Ok tt, mkWorld (f (morse w)) (rand w) (root w)).

Definition draw (f : rng E -> R * rng E) : M R :=
  fun w => let (v, g) := f (rand w) in (Ok v, mkWorld (morse w) g (root w)).

Notation "x <- m ;; k" := (bind m (fun x => k))
  (at level 61, m at next level, right associativity).
Notation "m ;;; k" := (bind m (fun _ => k))
  (at level 61, right associativity).

(** [random.gauss(mu, sigma)]: [mu + z * sigma] for a normal variate [z]. *)
Definition gauss (mu sigma : R) : M R :=
  z <- draw (normal_variate E) ;; ret (mu + z * sigma).

(** [random.uniform(a, b)]: [a + (b - a) * random()]. *)
Definition uniform (a b : R) : M R :=
  u <- draw (random E) ;; ret (a + (b - a) * u).

(** [AbstractNode.__init__] *)
Definition AbstractNode_init (object : string) : M AbstractNode :=
  json <- rpc (get_object_bbox E object) ;;
  bbox <- lift (BBox_init json) ;;
  ret (calc_anchors object bbox).

(** [ObjectNode.__init__] *)
Definition ObjectNode_init (object : string) : M ObjectNode :=
  b <- AbstractNode_init object ;;
  ret (mkObjectNode b 0 []).

(** [RootNode.__init__] *)
Definition RootNode_init (object : string) : M RootNode :=
  b <- AbstractNode_init object ;;
  ret (mkRootNode b [] [] [] [] [] [] []).

(** ** Distance ranges *)

(** [ObjectNode.calc_distance_range(object)], with the entries
    [self.directions[object]] and [self.distances[object]] of the child. *)
Definition calc_distance_range (self object : ObjectNode)
                               (direction distance : string) : M (R * R) :=
  r <- get_root ;;
  xyz <- lift (dict_get (positions r) (name (base self))) ;;
  let '(x, y, z) := xyz in
  obj_bbox <- lift (dict_get (global_bboxes r) (name (base self))) ;;
  json <- rpc (get_object_global_bbox E (name (root_base r))) ;;
  root_bbox <- lift (BBox_init json) ;;
  let min_xy_dim :=
    (Rmin (get_x_max (local_bbox (base object)) - get_x_min (local_bbox (base object)))
          (get_y_max (local_bbox (base object)) - get_y_min (local_bbox (base object)))
     * OBJECT_SCALE) / 2 in
  let '(min_dist, max_dist) :=
    if direction =? "back" then
      (x - get_x_min obj_bbox + min_xy_dim,
       x - get_x_min root_bbox - min_xy_dim)
    else if direction =? "right_back" then
      (sqrt (2 * Rmin (x - get_x_min obj_bbox) (get_y_max obj_bbox - y) ^ 2)
       + min_xy_dim,
       sqrt (2 * Rmin (x - get_x_min root_bbox) (get_y_max root_bbox - y) ^ 2)
       - min_xy_dim)
    else if direction =? "right" then
      (get_y_max obj_bbox - y + min_xy_dim,
       get_y_max root_bbox - y - min_xy_dim)
    else if direction =? "right_front" then
      (sqrt (2 * Rmin (get_x_max obj_bbox - x) (get_y_max obj_bbox - y) ^ 2)
       + min_xy_dim,
       sqrt (2 * Rmin (get_x_max root_bbox - x) (get_y_max root_bbox - y) ^ 2)
       - min_xy_dim)
    else if direction =? "left_front" then
      (sqrt (2 * Rmin (get_x_max obj_bbox - x) (y - get_y_min obj_bbox) ^ 2)
       + min_xy_dim,
       sqrt (2 * Rmin (get_x_max root_bbox - x) (y - get_y_min root_bbox) ^ 2)
       - min_xy_dim)
    else if direction =? "left" then
      (y - get_y_min obj_bbox + min_xy_dim,
       y - get_y_min root_bbox - min_xy_dim)
    else if direction =? "left_back" then
      (sqrt (2 * Rmin (x - get_x_min obj_bbox) (y - get_y_min obj_bbox) ^ 2)
       + min_xy_dim,
       sqrt (2 * Rmin (x - get_x_min root_bbox) (y - get_y_min root_bbox) ^ 2)
       - min_xy_dim)
    else
      (get_x_max obj_bbox - x + min_xy_dim,
       get_x_max root_bbox - x - min_xy_dim) in
  let max_dist :=
    if distance =? "close"
    then (((max_dist + min_dist) / 2) + min_dist) / 2
    else max_dist in
  ret (min_dist, max_dist).


(** ** Rejection sampling *)

(** [for x in l: body(x)] *)
Definition for_each {A : Type} (body : A -> M unit) : list A -> M unit :=
  fix go (l : list A) : M unit :=
    match l with
    | [] => ret tt
    | x :: l' => body x ;;; go l'
    end.

(** The loop [i = 0; while i < MAX_NUM_OF_SAMPLES: ...; i = i + 1] of both
    placement methods, from the value [i] on. [body] is one pass through
    the loop body and returns [true] when it leaves through [break]. The
    loop returns the final [i]. [fuel] bounds the number of passes. *)
Fixpoint while_loop (body : M bool) (fuel i : nat) : M nat :=
  match fuel with
  | O => ret i
  | S fuel' =>
      if (i <? MAX_NUM_OF_SAMPLES)%nat then
        b <- body ;;
        if b then ret i else while_loop body fuel' (i + 1)%nat
      else ret i
  end.

(** The five assignments that record an accepted candidate. *)
Definition record_placement (r : RootNode) (cname : string) (pos : R * R * R)
    (orientation : list R) (global_bbox : BBox) (json : json_bbox) : RootNode :=
  mkRootNode (root_base r) (root_children r) (scenes r)
             (objects r ++ [cname])
             (dict_set (positions r) cname pos)
             (dict_set (orientations r) cname orientation)
             (dict_set (global_bboxes r) cname global_bbox)
             (dict_set (global_bboxes_json r) cname json).

(** What both loop bodies do with a candidate [(x, y, z)]: the containment
    test, the pose sent to the simulator, the collision test and the
    record. *)
Definition try_candidate (c : ObjectNode) (x y z : R) : M bool :=
  self <- get_root ;;
  if within_root_bbox self c x y then
    pos <- rpc (transform_to_obj_frame E (name (root_base self)) (x, y, z)) ;;
    let orientation := quaternion_about_axis (get_yaw c) (0, 0, 1) in
    rpc_set (set_object_pose E (name (base c)) pos orientation) ;;;
    json <- rpc (get_object_global_bbox E (name (base c))) ;;
    global_bbox <- lift (BBox_init json) ;;
    hit <- lift (in_collision self global_bbox) ;;
    if negb hit then
      put_root (record_placement self (name (base c)) pos orientation
                                 global_bbox json) ;;;
      ret true
    else ret false
  else ret false.

(** One pass through the loop body of [RootNode.place_objects]. *)
Definition root_attempt (c : ObjectNode) (x_mu y_mu : R) : M bool :=
  self <- get_root ;;
  x <- gauss x_mu (x_sigma (root_base self)) ;;
  y <- gauss y_mu (y_sigma (root_base self)) ;;
  let z := get_z_max (local_bbox (root_base self))
           + (get_z_max (local_bbox (base c)) - get_z_min (local_bbox (base c))) / 2
           + Z_DIST in
  try_candidate c x y z.

(** [RootNode.place_objects], for one child [c], up to the [raise]. *)
Definition sample_root_child (c : ObjectNode) (anchor : string) : M unit :=
  self <- get_root ;;
  mu <- lift (get_anchor (root_base self) anchor) ;;
  let '(x_mu, y_mu) := mu in
  i <- while_loop (root_attempt c x_mu y_mu) MAX_NUM_OF_SAMPLES 0 ;;
  if (MAX_NUM_OF_SAMPLES <=? i)%nat
  then raise (PlacementException (name (base c)))
  else ret tt.

(** What [ObjectNode.place_children] computes for a child before its loop. *)
Record Relative : Type := mkRelative {
  self_x : R; self_y : R;
  root_x : R; root_y : R;
  phi_mu : R;
  min_dist : R; max_dist : R
}.

Definition relative_setup (self c : ObjectNode) (direction distance : string)
  : M Relative :=
  r <- get_root ;;
  xyz <- lift (dict_get (positions r) (name (base self))) ;;
  let '(self_x, self_y, self_z) := xyz in
  phi_mu <- lift (get_direction direction) ;;
  root_pose <- rpc (get_object_pose E (name (root_base r))) ;;
  let '(root_x, root_y, root_z) := fst root_pose in
  range <- calc_distance_range self c direction distance ;;
  let '(min_dist, max_dist) := range in
  ret (mkRelative self_x self_y root_x root_y phi_mu min_dist max_dist).

(** The angle and the distance of one candidate of [place_children]. *)
Definition draw_polar (p : Relative) : M (R * R) :=
  phi <- gauss (phi_mu p) DIRECTION_SIGMA ;;
  let phi := if Rltb phi 0 then phi + 2 * PI else phi in
  let phi := if Rgtb phi (2 * PI) then phi - 2 * PI else phi in
  dist <- uniform (min_dist p) (max_dist p) ;;
  ret (phi, dist).

(** One pass through the loop body of [ObjectNode.place_children]. *)
Definition relative_attempt (c : ObjectNode) (p : Relative) : M bool :=
  polar <- draw_polar p ;;
  let '(phi, dist) := polar in
  let x_rel := sin phi * dist in
  let y_rel := cos phi * dist in
  let x := self_x p - root_x p + x_rel in
  let y := self_y p - root_y p + y_rel in
  r <- get_root ;;
  let z := get_z_max (local_bbox (root_base r))
           + (get_z_max (local_bbox (base c)) - get_z_min (local_bbox (base c))) / 2
           + Z_DIST in
  try_candidate c x y z.

(** [ObjectNode.place_children], for one child [c], up to the [raise]. *)
Definition sample_relative_child (self c : ObjectNode)
                                 (direction distance : string) : M unit :=
  p <- relative_setup self c direction distance ;;
  i <- while_loop (relative_attempt c p) MAX_NUM_OF_SAMPLES 0 ;;
  if (MAX_NUM_OF_SAMPLES <=? i)%nat
  then raise (PlacementException (name (base c)))
  else ret tt.

(** [ObjectNode.place_children] *)
Fixpoint place_children (self : ObjectNode) : M unit :=
  for_each (fun entry : ObjectNode * string * string =>
              let '(c, direction, distance) := entry in
              sample_relative_child self c direction distance ;;;
              place_children c)
           (children self).

(** [RootNode.place_objects(no)] *)
Definition place_objects (no : nat) : M unit :=
  self <- get_root ;;
  for_each (fun entry : ObjectNode * string =>
              let '(c, anchor) := entry in
              sample_root_child c anchor ;;;
              place_children c)
           (root_children self) ;;;
  self <- get_root ;;
  let scene := mkScene no (objects self) (positions self) (orientations self)
                       (global_bboxes_json self) in
  put_root (mkRootNode (root_base self) (root_children self)
                       (scenes self ++ [scene]) (objects self) (positions self)
                       (orientations self) (global_bboxes self)
                       (global_bboxes_json self)).

(** The world after [k] passes through a loop body, and what it means
    for the pass numbered [k] to reject, to accept or to raise. *)
Fixpoint world_after (body : M bool) (k : nat) (w : World) : World :=
  match k with
  | O => w
  | S k' => world_after body k' (snd (body w))
  end.

Definition verdict (body : M bool) (k : nat) (w : World) : result bool :=
  fst (body (world_after body k w)).

End Placement.

(** ** Names used in the statements *)

(** The nine anchor names and the eight direction names the two lookups
    compare against or leave to their last branch. *)
Definition anchor_names : list string :=
  ["north"; "north_east"; "east"; "south_east"; "south"; "south_west";
   "west"; "north_west"; "center"].

Definition direction_names : list string :=
  ["back"; "right_back"; "right"; "right_front"; "left_front"; "left";
   "left_back"; "front"].

(** The two-dimensional overlap of two boxes, as a proposition. *)
Definition overlap2d (a b : BBox) : Prop :=
  x_max a >= x_min b /\ x_min a <= x_max b /\
  y_max a >= y_min b /\ y_min a <= y_max b.

(** A root node that differs from [r] in its recorded boxes only. *)
Definition with_global_bboxes (r : RootNode) (d : dict BBox) : RootNode :=
  mkRootNode (root_base r) (root_children r) (scenes r) (objects r)
             (positions r) (orientations r) d (global_bboxes_json r).

(** A box with other z extents. *)
Definition with_z (b : BBox) (lo hi : R) : BBox :=
  mkBBox (x_min b) (x_max b) (y_min b) (y_max b) lo hi.

(** ** A desk *)

(** The eight corners of an axis-aligned box, as the simulator lists them. *)
Definition corners (x0 x1 y0 y1 z0 z1 : R) : json_bbox :=
  [[x0; y0; z0]; [x0; y0; z1]; [x0; y1; z0]; [x0; y1; z1];
   [x1; y0; z0]; [x1; y0; z1]; [x1; y1; z0]; [x1; y1; z1]].

(** A desk of six by six, one high, with its corner at the origin. *)
Definition table_bbox : BBox := mkBBox 0 6 0 6 0 1.
Definition table_node : AbstractNode := calc_anchors "table" table_bbox.

(** A simulator for the desk. Every frame is the world frame: the desk
    has its corner at the origin and is never moved, the other objects are
    boxes centred on the position they were last given. The normal variates
    are -1/10 for the first draw and 0 from then on, the uniform variates
    are all 1/2. *)
Definition desk_half_extents (n : string) : R * R * R :=
  if n =? "monitor1" then (1 / 2, 1 / 2, 1 / 2)
  else if n =? "keyboard1" then (2 / 5, 2 / 5, 1 / 20)
  else (1 / 20, 1 / 20, 1 / 20).

Definition desk_box (n : string) (p : R * R * R) : json_bbox :=
  let '(x, y, z) := p in
  if n =? "table" then corners x (x + 6) y (y + 6) z (z + 1)
  else
    let '(hx, hy, hz) := desk_half_extents n in
    corners (x - hx) (x + hx) (y - hy) (y + hy) (z - hz) (z + hz).

Definition desk_pose (n : string) (s : dict ((R * R * R) * list R))
  : (R * R * R) * list R :=
  match dict_find s n with
  | Some p => p
  | None => ((0, 0, 0), [1; 0; 0; 0])
  end.

Definition desk : Environment :=
  {| sim := dict ((R * R * R) * list R);
     get_object_bbox := fun n _ => desk_box n (0, 0, 0);
     get_object_global_bbox := fun n s => desk_box n (fst (desk_pose n s));
     get_object_pose := desk_pose;
     set_object_pose := fun n pos orientation s => dict_set s n (pos, orientation);
     transform_to_obj_frame := fun _ p _ => p;
     rng := nat;
     random := fun g => (1 / 2, S g);
     normal_variate := fun g => ((if Nat.eqb g 0 then - (1 / 10) else 0), S g) |}.

(** A monitor of one by one on the desk, and a keyboard with a footprint
    of 4/5 by 4/5 to go in front of it. *)
Definition keyboard : ObjectNode :=
  mkObjectNode
    (calc_anchors "keyboard1"
       (mkBBox (- (2 / 5)) (2 / 5) (- (2 / 5)) (2 / 5) (- (1 / 20)) (1 / 20)))
    0 [].

Definition monitor (direction distance : string) : ObjectNode :=
  mkObjectNode
    (calc_anchors "monitor1"
       (mkBBox (- (1 / 2)) (1 / 2) (- (1 / 2)) (1 / 2) (- (1 / 2)) (1 / 2)))
    0 [(keyboard, direction, distance)].

(** The world before anything is placed: the monitor is the one child of
    the desk, at the anchor [south]. *)
Definition desk_root (direction distance : string) : RootNode :=
  mkRootNode table_node [(monitor direction distance, "south")]
             [] [] [] [] [] [].

Definition desk_world0 (direction distance : string) : World desk :=
  mkWorld desk [] 0%nat (desk_root direction distance).

(** The world once the monitor stands at (49/10, 3): what the first pass
    of [place_objects] leaves behind. *)
Definition monitor_pos : R * R * R := (49 / 10, 3, 1 + 1 / 2 + Z_DIST).

Definition monitor_bbox : BBox :=
  mkBBox (49 / 10 - 1 / 2) (49 / 10 + 1 / 2) (3 - 1 / 2) (3 + 1 / 2)
         (1 + 1 / 2 + Z_DIST - 1 / 2) (1 + 1 / 2 + Z_DIST + 1 / 2).

Definition desk_root1 (direction distance : string) : RootNode :=
  record_placement (desk_root direction distance) "monitor1" monitor_pos
                   (quaternion_about_axis 0 (0, 0, 1)) monitor_bbox
                   (desk_box "monitor1" monitor_pos).

Definition desk_world1 (direction distance : string) : World desk :=
  mkWorld desk
          [("monitor1", (monitor_pos, quaternion_about_axis 0 (0, 0, 1)))]
          2%nat (desk_root1 direction distance).

(** What [place_children] looks up for the keyboard in front of the
    monitor. *)
Definition desk_relative (distance : string) : Relative :=
  mkRelative (49 / 10) 3 0 0 (PI / 2) (9 / 10)
             (if distance =? "close" then 17 / 20 else 7 / 10).

(** ** A desk in use *)

(** A lamp and a cup, boxes of 1/10 by 1/10, stand in two corners of the
    desk and are on record; the monitor is still to be placed, with the
    keyboard behind it. The worlds [busy_world1] and [busy_world2] are
    what the placement of the monitor at (49/10, 3) and of the keyboard at
    (11/5, 3) leave behind, [busy_relative] is what [place_children] looks
    up for the keyboard. *)
Definition lamp_pos : R * R * R := (1 / 2, 1 / 2, 1 + 1 / 20 + Z_DIST).
Definition cup_pos : R * R * R := (1 / 2, 11 / 2, 1 + 1 / 20 + Z_DIST).

Definition small_bbox (p : R * R * R) : BBox :=
  let '(x, y, z) := p in
  mkBBox (x - 1 / 20) (x + 1 / 20) (y - 1 / 20) (y + 1 / 20)
         (z - 1 / 20) (z + 1 / 20).

Definition busy_root : RootNode :=
  record_placement
    (record_placement (desk_root "back" "any") "lamp1" lamp_pos
       (quaternion_about_axis 0 (0, 0, 1)) (small_bbox lamp_pos)
       (desk_box "lamp1" lamp_pos))
    "cup1" cup_pos (quaternion_about_axis 0 (0, 0, 1)) (small_bbox cup_pos)
    (desk_box "cup1" cup_pos).

Definition busy_world0 : World desk :=
  mkWorld desk
          [("lamp1", (lamp_pos, quaternion_about_axis 0 (0, 0, 1)));
           ("cup1", (cup_pos, quaternion_about_axis 0 (0, 0, 1)))]
          0%nat busy_root.

Definition busy_root1 : RootNode :=
  record_placement busy_root "monitor1" monitor_pos
                   (quaternion_about_axis 0 (0, 0, 1)) monitor_bbox
                   (desk_box "monitor1" monitor_pos).

Definition busy_world1 : World desk :=
  mkWorld desk
          [("lamp1", (lamp_pos, quaternion_about_axis 0 (0, 0, 1)));
           ("cup1", (cup_pos, quaternion_about_axis 0 (0, 0, 1)));
           ("monitor1", (monitor_pos, quaternion_about_axis 0 (0, 0, 1)))]
          2%nat busy_root1.

Definition keyboard_pos : R * R * R := (11 / 5, 3, 1 + 1 / 20 + Z_DIST).

Definition keyboard_bbox : BBox :=
  mkBBox (11 / 5 - 2 / 5) (11 / 5 + 2 / 5) (3 - 2 / 5) (3 + 2 / 5)
         (1 + 1 / 20 + Z_DIST - 1 / 20) (1 + 1 / 20 + Z_DIST + 1 / 20).

Definition busy_root2 : RootNode :=
  record_placement busy_root1 "keyboard1" keyboard_pos
                   (quaternion_about_axis 0 (0, 0, 1)) keyboard_bbox
                   (desk_box "keyboard1" keyboard_pos).

Definition busy_world2 : World desk :=
  mkWorld desk
          [("lamp1", (lamp_pos, quaternion_about_axis 0 (0, 0, 1)));
           ("cup1", (cup_pos, quaternion_about_axis 0 (0, 0, 1)));
           ("monitor1", (monitor_pos, quaternion_about_axis 0 (0, 0, 1)));
           ("keyboard1", (keyboard_pos, quaternion_about_axis 0 (0, 0, 1)))]
          4%nat busy_root2.

Definition busy_relative : Relative :=
  mkRelative (49 / 10) 3 0 0 (3 * PI / 2) (9 / 10) (9 / 2).

(** The parent [self] stands at [(x, y, z)] with the world box [ob], on a
    root surface whose world box is [rb]: the three things
    [calc_distance_range] looks up. *)
Definition placed (E : Environment) (w : World E) (self : ObjectNode)
           (x y z : R) (ob rb : BBox) : Prop :=
  dict_get (positions (root E w)) (name (base self)) = Ok (x, y, z)
  /\ dict_get (global_bboxes (root E w)) (name (base self)) = Ok ob
  /\ BBox_init (get_object_global_bbox E (name (root_base (root E w))) (morse E w))
     = Ok rb.





Definition with_scene (r : RootNode) (no : nat) : RootNode :=
  mkRootNode (root_base r) (root_children r)
             (scenes r
              ++ [mkScene no (objects r) (positions r) (orientations r)
                          (global_bboxes_json r)])
             (objects r) (positions r) (orientations r) (global_bboxes r)
             (global_bboxes_json r).

(** ** Further names used in the statements *)

(** The coordinate numbered [k] of a point, 0 where it is missing. *)
Definition coord (k : nat) (p : list R) : R := nth k p 0.

(** The coordinates numbered [k] of the points of [bbox], in the order
    [sorted] puts the points in. *)
Definition sorted_coords (k : nat) (bbox : json_bbox) : list R :=
  map fst (sort_by_key (map (fun p => (coord k p, p)) bbox)).

(** Every point has its three coordinates. *)
Definition three_coords (bbox : json_bbox) : Prop :=
  Forall (fun p => (3 <= List.length p)%nat) bbox.

(** The names of a node and of the nodes below it, depth first, every
    node before its children. *)
Fixpoint preorder (n : ObjectNode) : list string :=
  name (base n)
  :: flat_map (fun entry : ObjectNode * string * string =>
                 preorder (fst (fst entry))) (children n).

(** The names below a node, and the names of a whole tree. *)
Definition preorder_children (n : ObjectNode) : list string :=
  flat_map (fun entry : ObjectNode * string * string =>
              preorder (fst (fst entry))) (children n).

Definition preorder_root (r : RootNode) : list string :=
  flat_map (fun entry : ObjectNode * string => preorder (fst entry))
           (root_children r).

(** [k] has a position and a box in the tables of the root. *)
Definition recorded (r : RootNode) (k : string) : Prop :=
  dict_find (positions r) k <> None /\ dict_find (global_bboxes r) k <> None.

(** No two boxes recorded under different names overlap. *)
Definition disjoint_boxes (r : RootNode) : Prop :=
  forall k1 k2 b1 b2,
    k1 <> k2 ->
    dict_find (global_bboxes r) k1 = Some b1 ->
    dict_find (global_bboxes r) k2 = Some b2 ->
    ~ overlap2d b1 b2.

(** What a part of a placement pass may do to the root: it places the
    objects [names], in this order, and changes nothing else. *)
Definition places (r r' : RootNode) (names : list string) : Prop :=
  root_base r' = root_base r
  /\ root_children r' = root_children r
  /\ scenes r' = scenes r
  /\ objects r' = (objects r ++ names)%list
  /\ (forall k, recorded r k -> recorded r' k)
  /\ (forall k, In k names -> recorded r' k)
  /\ (disjoint_boxes r -> disjoint_boxes r').

(** [l1] is a beginning of [l2]. *)
Definition prefix (l1 l2 : list string) : Prop :=
  exists rest, l2 = (l1 ++ rest)%list.

(** What a part of a placement pass makes of the world [w], when the
    objects it is to place are [expected], in this order: it places a
    beginning of them; all of them when it returns; and when it raises, it
    raises [IndexError] or the [PlacementException] of the first object it
    has not placed. *)
Definition tree_outcome (E : Environment) (w : World E)
           (run : result unit * World E) (expected : list string) : Prop :=
  exists names,
    places (root E w) (root E (snd run)) names
    /\ prefix names expected
    /\ (fst run = Ok tt -> names = expected)
    /\ (forall e, fst run = Raise e ->
                  e = IndexError
                  \/ exists c, e = PlacementException c
                               /\ prefix (names ++ [c]) expected).

(** A computer case with a footprint of four by four, too large for the
    desk. *)
Definition pc_case : ObjectNode :=
  mkObjectNode (calc_anchors "pc1" (mkBBox (- 2) 2 (- 2) 2 0 1)) 0 [].

(** ** The scene loader *)

(** The functions of [src/strand_morse/tufts_scene_loader.py] that
    compute: [quaternion_multiply] and [obj_name]. *)

(** [quaternion_multiply(q1, q2)] *)
Definition quaternion_multiply (q1 q2 : list R) : result (list R) :=
  (a0 <- getitem q1 0 ;; b0 <- getitem q2 0 ;;
   a1 <- getitem q1 1 ;; b1 <- getitem q2 1 ;;
   a2 <- getitem q1 2 ;; b2 <- getitem q2 2 ;;
   a3 <- getitem q1 3 ;; b3 <- getitem q2 3 ;;
   Ok [a0 * b0 - a1 * b1 - a2 * b2 - a3 * b3;
       a0 * b1 + a1 * b0 + a2 * b3 - a3 * b2;
       a0 * b2 - a1 * b3 + a2 * b0 + a3 * b1;
       a0 * b3 + a1 * b2 - a2 * b1 + a3 * b0])%res.

(** [s.split(sep)] for a separator of one character: the first part and
    the further parts (the list Python returns is never empty). *)
Fixpoint split (sep : Ascii.ascii) (s : string) : string * list string :=
  match s with
  | EmptyString => (EmptyString, [])
  | String c s' =>
      let (p, ps) := split sep s' in
      if Ascii.eqb c sep then (EmptyString, p :: ps) else (String c p, ps)
  end.

(** The outcome of a computation that can only raise [ValueError]. *)
Inductive parsed (A : Type) : Type :=
| Parsed (v : A)
| ValueError.
Arguments Parsed {A} v.
Arguments ValueError {A}.

Section ObjName.

(** Python's [int] on a string ([ValueError] where it raises) and [str] on
    an integer. *)
Variable int : string -> parsed Z.
Variable str : Z -> string.

(** [obj_name(obj, offset)], with its local constant [SET_SIZE = 0]. *)
Definition obj_name (obj : string) (offset : Z) : parsed string :=
  let SET_SIZE := 0%Z in
  let (part0, rest) := split "."%char obj in
  let finish (postfix : Z) : string :=
    if (postfix <? 10)%Z
    then (part0 ++ ".00" ++ str postfix)%string
    else (part0 ++ ".0" ++ str postfix)%string in
  match rest with
  | [] =>
      let postfix := (SET_SIZE * offset)%Z in
      if (postfix =? 0)%Z then Parsed part0 else Parsed (finish postfix)
  | part1 :: _ =>
      match int part1 with
      | Parsed n => Parsed (finish (SET_SIZE * offset + n)%Z)
      | ValueError => ValueError
      end
  end.

End ObjName.

(** A list of reals in ascending order. *)
Inductive ascending : list R -> Prop :=
| ascending_nil : ascending []
| ascending_cons (x : R) (l : list R) :
    Forall (fun y => x <= y) l -> ascending l -> ascending (x :: l).

(** * Properties *)

(** ** Boolean comparisons *)

Lemma Rltb_true (a b : R) : Rltb a b = true <-> a < b.
Proof. unfold Rltb; destruct (Rlt_dec a b); split; intros; easy. Qed.

Lemma Rltb_false (a b : R) : Rltb a b = false <-> b <= a.
Proof.
  unfold Rltb; destruct (Rlt_dec a b); split; intros; try easy; lra.
Qed.

Lemma Rleb_true (a b : R) : Rleb a b = true <-> a <= b.
Proof. unfold Rleb; destruct (Rle_dec a b); split; intros; easy. Qed.

Lemma Rleb_false (a b : R) : Rleb a b = false <-> b < a.
Proof.
  unfold Rleb; destruct (Rle_dec a b); split; intros; try easy; lra.
Qed.

Lemma Rgeb_true (a b : R) : Rgeb a b = true <-> a >= b.
Proof. unfold Rgeb; rewrite Rleb_true; split; lra. Qed.

Lemma Rgtb_true (a b : R) : Rgtb a b = true <-> a > b.
Proof. unfold Rgtb; rewrite Rltb_true; split; lra. Qed.

Lemma Rgtb_false (a b : R) : Rgtb a b = false <-> a <= b.
Proof. unfold Rgtb; rewrite Rltb_false; split; lra. Qed.

(** ** Containment *)

Lemma within_root_bbox_true (self : RootNode) (object : ObjectNode) (x y : R) :
  let s := local_bbox (root_base self) in
  let o := local_bbox (base object) in
  let d := Rmin (x_max o - x_min o) (y_max o - y_min o) * OBJECT_SCALE in
  within_root_bbox self object x y = true <->
  x_min s + d < x /\ x < x_max s - d /\ y_min s + d < y /\ y < y_max s - d.
Proof.
  intros s o d.
  unfold within_root_bbox, get_x_min, get_x_max, get_y_min, get_y_max.
  fold s; fold o; fold d.
  destruct (_ && _) eqn:Hb.
  - rewrite !andb_true_iff, !Rltb_true in Hb. tauto.
  - split; [discriminate|]. intros (H1 & H2 & H3 & H4).
    apply Rltb_true in H1, H2, H3, H4.
    rewrite H1, H2, H3, H4 in Hb. discriminate.
Qed.

(** C2. [within_root_bbox] answers [true] exactly when [x] and [y] lie
    strictly inside the surface's local box shrunk on every side by
    [d = min (width, depth) * OBJECT_SCALE] of the candidate; every point
    that breaks one of the four strict comparisons is rejected. *)
Theorem C2_within_root_bbox_iff (self : RootNode) (object : ObjectNode) (x y : R) :
  let s := local_bbox (root_base self) in
  let o := local_bbox (base object) in
  let d := Rmin (x_max o - x_min o) (y_max o - y_min o) * OBJECT_SCALE in
  (within_root_bbox self object x y = true <->
     x_min s + d < x /\ x < x_max s - d /\ y_min s + d < y /\ y < y_max s - d)
  /\
  (within_root_bbox self object x y = false <->
     x <= x_min s + d \/ x_max s - d <= x \/ y <= y_min s + d \/ y_max s - d <= y).
Proof.
  intros s o d.
  pose proof (within_root_bbox_true self object x y) as H.
  cbv zeta in H. fold s o d in H.
  split; [exact H|].
  destruct (within_root_bbox self object x y).
  - split; [discriminate|]. intros Hout.
    destruct (proj1 H eq_refl) as (H1 & H2 & H3 & H4). lra.
  - split; [|reflexivity]. intros _.
    destruct (Rlt_le_dec (x_min s + d) x) as [H1|H1]; [|lra].
    destruct (Rlt_le_dec x (x_max s - d)) as [H2|H2]; [|lra].
    destruct (Rlt_le_dec (y_min s + d) y) as [H3|H3]; [|lra].
    destruct (Rlt_le_dec y (y_max s - d)) as [H4|H4]; [|lra].
    assert (false = true) by (apply H; auto). discriminate.
Qed.

(** ** Dictionaries *)

Lemma dict_find_some_in {V : Type} (d : dict V) (k : string) (v : V) :
  dict_find d k = Some v -> In (k, v) d.
Proof.
  induction d as [|[k' v'] d IH]; simpl; [discriminate|].
  destruct (String.eqb_spec k k') as [->|Hne]; intros H.
  - injection H as ->. now left.
  - right. auto.
Qed.

Lemma dict_find_in_keys {V : Type} (d : dict V) (k : string) :
  In k (keys d) <-> exists v, dict_find d k = Some v.
Proof.
  induction d as [|[k' v'] d IH]; simpl.
  - split; [tauto | intros [v H]; discriminate].
  - destruct (String.eqb_spec k k') as [->|Hne].
    + split; eauto.
    + rewrite <- IH. split; [intros [H|H]; congruence || assumption | auto].
Qed.

Lemma dict_find_nodup {V : Type} (d : dict V) (k : string) (v : V) :
  NoDup (keys d) -> In (k, v) d -> dict_find d k = Some v.
Proof.
  induction d as [|[k' v'] d IH]; simpl; [tauto|].
  intros Hnd [H|H].
  - injection H as -> ->. now rewrite String.eqb_refl.
  - inversion Hnd as [|? ? Hnotin Hnd']; subst.
    destruct (String.eqb_spec k k') as [->|Hne].
    + exfalso. apply Hnotin. unfold keys.
      change k' with (fst (k', v)). now apply in_map.
    + auto.
Qed.

Lemma dict_find_permutation {V : Type} (d d' : dict V) (k : string) :
  NoDup (keys d) -> Permutation d d' -> dict_find d' k = dict_find d k.
Proof.
  intros Hnd Hp.
  assert (Hnd' : NoDup (keys d')).
  { eapply Permutation_NoDup; [|exact Hnd]. unfold keys. now apply Permutation_map. }
  destruct (dict_find d k) as [v|] eqn:Hd.
  - apply dict_find_nodup; [assumption|].
    eapply Permutation_in; [exact Hp|]. now apply dict_find_some_in.
  - destruct (dict_find d' k) as [v'|] eqn:Hd'; [|reflexivity].
    apply dict_find_some_in in Hd'.
    apply (Permutation_in _ (Permutation_sym Hp)) in Hd'.
    apply dict_find_nodup in Hd'; [congruence | assumption].
Qed.

(** ** Collision *)

Lemma overlaps_iff (a b : BBox) :
  overlaps (get_x_min a) (get_x_max a) (get_y_min a) (get_y_max a) b = true
  <-> overlap2d a b.
Proof.
  unfold overlaps, overlap2d, get_x_min, get_x_max, get_y_min, get_y_max.
  rewrite !andb_true_iff, !Rgeb_true, !Rleb_true. tauto.
Qed.

(** The scan over keys of the dictionary never raises, and finds a hit
    exactly when one of the scanned keys is bound to an overlapping box. *)
Lemma collision_scan_spec (boxes : dict BBox) (ks : list string)
      (xl xh yl yh : R) :
  (forall k, In k ks -> In k (keys boxes)) ->
  exists r, collision_scan boxes ks xl xh yl yh = Ok r /\
    (r = true <->
     exists k b, In k ks /\ dict_find boxes k = Some b /\
                 overlaps xl xh yl yh b = true).
Proof.
  induction ks as [|k ks IH]; simpl; intros Hsub.
  - exists false. split; [reflexivity|].
    split; [discriminate | intros (k & b & [] & _)].
  - destruct (proj1 (dict_find_in_keys boxes k) (Hsub k (or_introl eq_refl)))
      as [b Hb].
    unfold dict_get. rewrite Hb. simpl.
    destruct (overlaps xl xh yl yh b) eqn:Ho.
    + exists true. split; [reflexivity|]. split; [|reflexivity].
      intros _. exists k, b. auto.
    + destruct IH as (r & Hr & Hiff); [intros; apply Hsub; now right|].
      exists r. split; [assumption|]. rewrite Hiff. split.
      * intros (k' & b' & Hin & Hf & Hov). exists k', b'. auto.
      * intros (k' & b' & [<-|Hin] & Hf & Hov).
        -- congruence.
        -- exists k', b'. auto.
Qed.

Lemma in_collision_spec (self : RootNode) (bbox : BBox) :
  exists r, in_collision self bbox = Ok r /\
    (r = true <->
     exists k b, dict_find (global_bboxes self) k = Some b /\ overlap2d bbox b).
Proof.
  unfold in_collision.
  destruct (collision_scan_spec (global_bboxes self) (keys (global_bboxes self))
              (get_x_min bbox) (get_x_max bbox) (get_y_min bbox) (get_y_max bbox))
    as (r & Hr & Hiff); [auto|].
  exists r. split; [assumption|]. rewrite Hiff. split.
  - intros (k & b & _ & Hf & Ho). exists k, b. split; [assumption|].
    now apply overlaps_iff.
  - intros (k & b & Hf & Ho). exists k, b. repeat split.
    + apply dict_find_in_keys. eauto.
    + assumption.
    + now apply overlaps_iff.
Qed.

Lemma in_collision_ext (r1 r2 : RootNode) (b1 b2 : BBox) :
  ((exists k b, dict_find (global_bboxes r1) k = Some b /\ overlap2d b1 b) <->
   (exists k b, dict_find (global_bboxes r2) k = Some b /\ overlap2d b2 b)) ->
  in_collision r1 b1 = in_collision r2 b2.
Proof.
  intros H.
  destruct (in_collision_spec r1 b1) as (x1 & -> & H1).
  destruct (in_collision_spec r2 b2) as (x2 & -> & H2).
  f_equal. destruct x1, x2; try reflexivity.
  - symmetry. apply H2, H, H1. reflexivity.
  - apply H1, H, H2. reflexivity.
Qed.

Lemma dict_find_map_values {V : Type} (f : string -> V -> V) (d : dict V)
      (k : string) :
  dict_find (map (fun kv => (fst kv, f (fst kv) (snd kv))) d) k
  = option_map (f k) (dict_find d k).
Proof.
  induction d as [|[k' v'] d IH]; simpl; [reflexivity|].
  destruct (String.eqb_spec k k') as [->|Hne]; [reflexivity | assumption].
Qed.

(** C3. [in_collision] answers [true] exactly when some recorded box [b]
    satisfies the four comparisons with the candidate; it answers [false]
    otherwise and never raises. The z extents of the candidate and of the
    recorded boxes do not matter, and neither does the order in which the
    (distinctly named) objects were recorded. *)
Theorem C3_in_collision_iff (self : RootNode) (bbox : BBox)
        (lo hi : R) (zlo zhi : string -> BBox -> R) :
  (in_collision self bbox = Ok true <->
   exists k b, dict_find (global_bboxes self) k = Some b /\
     x_max bbox >= x_min b /\ x_min bbox <= x_max b /\
     y_max bbox >= y_min b /\ y_min bbox <= y_max b)
  /\ (in_collision self bbox = Ok false <->
      ~ exists k b, dict_find (global_bboxes self) k = Some b /\
          x_max bbox >= x_min b /\ x_min bbox <= x_max b /\
          y_max bbox >= y_min b /\ y_min bbox <= y_max b)
  /\ in_collision self (with_z bbox lo hi) = in_collision self bbox
  /\ in_collision
       (with_global_bboxes self
          (map (fun kb => (fst kb, with_z (snd kb) (zlo (fst kb) (snd kb))
                                                   (zhi (fst kb) (snd kb))))
               (global_bboxes self)))
       bbox
     = in_collision self bbox
  /\ (forall recorded' : dict BBox,
        NoDup (keys (global_bboxes self)) ->
        Permutation (global_bboxes self) recorded' ->
        in_collision (with_global_bboxes self recorded') bbox
        = in_collision self bbox).
Proof.
  destruct (in_collision_spec self bbox) as (r & Hr & Hiff).
  fold (overlap2d bbox) in *.
  split; [|split; [|split; [|split]]].
  - rewrite Hr. split.
    + intros H. injection H as ->. now apply Hiff.
    + intros H. f_equal. now apply Hiff.
  - rewrite Hr. split.
    + intros H Hex. injection H as ->. apply Hiff in Hex. discriminate.
    + intros H. f_equal. destruct r; [|reflexivity].
      exfalso. apply H, Hiff. reflexivity.
  - reflexivity.
  - apply in_collision_ext. unfold with_global_bboxes; simpl. split.
    + intros (k & b & Hf & Ho).
      rewrite (dict_find_map_values
                 (fun k b => with_z b (zlo k b) (zhi k b))) in Hf.
      destruct (dict_find (global_bboxes self) k) as [b0|] eqn:Hk;
        [|discriminate].
      injection Hf as <-. exists k, b0. split; [exact Hk | exact Ho].
    + intros (k & b & Hf & Ho).
      exists k, (with_z b (zlo k b) (zhi k b)). split; [|exact Ho].
      rewrite (dict_find_map_values
                 (fun k b => with_z b (zlo k b) (zhi k b))), Hf.
      reflexivity.
  - intros recorded' Hnd Hperm.
    apply in_collision_ext. unfold with_global_bboxes; simpl.
    split; intros (k & b & Hf & Ho); exists k, b; split; try assumption.
    + now rewrite <- (dict_find_permutation _ _ k Hnd Hperm).
    + now rewrite (dict_find_permutation _ _ k Hnd Hperm).
Qed.

(** ** Anchors and directions *)

Ltac pick_sixths :=
  do 2 eexists; split; [|split]; [| |reflexivity]; simpl; auto 6.

Ltac pick_anchor :=
  first [ exists "north"; split; [simpl; auto 12 | reflexivity]
        | exists "north_east"; split; [simpl; auto 12 | reflexivity]
        | exists "east"; split; [simpl; auto 12 | reflexivity]
        | exists "south_east"; split; [simpl; auto 12 | reflexivity]
        | exists "south"; split; [simpl; auto 12 | reflexivity]
        | exists "south_west"; split; [simpl; auto 12 | reflexivity]
        | exists "west"; split; [simpl; auto 12 | reflexivity]
        | exists "north_west"; split; [simpl; auto 12 | reflexivity]
        | exists "center"; split; [simpl; auto 12 | reflexivity] ].

(** C7. [calc_anchors] puts every one of the nine named anchors at
    [min + k * (extent / 6)] on each axis with [k] among 1, 3 and 5, the
    nine anchors cover all nine combinations, and the two sigmas are the
    squares of a sixth of the extents; on a box spanning 0..6 on both
    axes [center] is [(3, 3)], [north_west] is [(1, 1)] and [south_east]
    is [(5, 5)]. *)
Theorem C7_calc_anchors_grid (nm : string) (bb : BBox) (z0 z1 : R) :
  let n := calc_anchors nm bb in
  let sx := (x_max bb - x_min bb) / 6 in
  let sy := (y_max bb - y_min bb) / 6 in
  x_sigma n = sx ^ 2
  /\ y_sigma n = sy ^ 2
  /\ Forall (fun a => exists kx ky : R,
               In kx [1; 3; 5] /\ In ky [1; 3; 5] /\
               get_anchor n a = Ok (x_min bb + kx * sx, y_min bb + ky * sy))
            anchor_names
  /\ Forall (fun kx => Forall (fun ky => exists a,
               In a anchor_names /\
               get_anchor n a = Ok (x_min bb + kx * sx, y_min bb + ky * sy))
               [1; 3; 5]) [1; 3; 5]
  /\ (let n6 := calc_anchors nm (mkBBox 0 6 0 6 z0 z1) in
      get_anchor n6 "center" = Ok (3, 3)
      /\ get_anchor n6 "north_west" = Ok (1, 1)
      /\ get_anchor n6 "south_east" = Ok (5, 5)).
Proof.
  intros n sx sy.
  split; [simpl; unfold get_x_max, get_x_min; fold sx; ring|].
  split; [simpl; unfold get_y_max, get_y_min; fold sy; ring|].
  split; [unfold anchor_names;
          repeat (apply Forall_cons; [pick_sixths|]); apply Forall_nil|].
  split; [repeat (apply Forall_cons;
                  [repeat (apply Forall_cons; [pick_anchor|]); apply Forall_nil|]);
          apply Forall_nil|].
  unfold get_anchor, calc_anchors, get_x_max, get_x_min, get_y_max, get_y_min;
    simpl.
  repeat split; f_equal; f_equal; lra.
Qed.

(** Names outside the lists fall through to the last branch. *)
Lemma get_anchor_default (self : AbstractNode) (a : string) :
  ~ In a anchor_names -> get_anchor self a = Ok (center self).
Proof.
  unfold anchor_names, get_anchor; simpl; intros H.
  repeat match goal with
         | |- context [String.eqb a ?s] =>
             destruct (String.eqb_spec a s); [exfalso; apply H; auto 12|]
         end.
  reflexivity.
Qed.

Lemma get_direction_default (d : string) :
  ~ In d direction_names -> get_direction d = Ok Direction.front.
Proof.
  unfold direction_names, get_direction; simpl; intros H.
  repeat match goal with
         | |- context [String.eqb d ?s] =>
             destruct (String.eqb_spec d s); [exfalso; apply H; auto 12|]
         end.
  reflexivity.
Qed.

Lemma not_in_names (a : string) (l : list string) :
  forallb (fun s => negb (String.eqb a s)) l = true -> ~ In a l.
Proof.
  rewrite forallb_forall. intros H Hin. specialize (H a Hin).
  now rewrite String.eqb_refl in H.
Qed.

(** C8, as the code has it. A name that is none of the nine anchor names
    makes [get_anchor] return the [center] anchor, and a name that is none
    of the eight direction names makes [get_direction] return the angle of
    [front]; neither lookup raises. *)
Theorem C8_unknown_names_fall_back (self : AbstractNode) (a d : string) :
  ~ In a anchor_names ->
  ~ In d direction_names ->
  get_anchor self a = Ok (center self)
  /\ get_direction d = Ok (PI / 2)
  /\ (forall e, get_anchor self a <> Raise e)
  /\ (forall e, get_direction d <> Raise e).
Proof.
  intros Ha Hd.
  rewrite (get_anchor_default self a Ha), (get_direction_default d Hd).
  repeat split; intros e; discriminate.
Qed.

Lemma C8_unknown_names_fall_back_witness :
  get_anchor table_node "middle" = Ok (center table_node)
  /\ get_direction "up" = Ok (PI / 2)
  /\ (forall e, get_anchor table_node "middle" <> Raise e)
  /\ (forall e, get_direction "up" <> Raise e).
Proof.
  apply (C8_unknown_names_fall_back table_node "middle" "up");
    apply not_in_names; reflexivity.
Defined.

(** C8, as the specification words it, fails: on the desk the anchor name
    [middle] and the direction name [up], which are not recognised, are
    answered with a value and no exception of any class. *)
Lemma C8_unknown_names_counterexample :
  ~ ((forall a, ~ In a anchor_names ->
        exists e, get_anchor table_node a = Raise e
                  /\ exn_class e = "UnknownAnchor")
     /\ (forall d, ~ In d direction_names ->
           exists e, get_direction d = Raise e
                     /\ exn_class e = "UnknownDirection")).
Proof.
  intros [Ha _].
  destruct (Ha "middle") as (e & He & _).
  - apply not_in_names; reflexivity.
  - rewrite get_anchor_default in He; [discriminate|].
    apply not_in_names; reflexivity.
Qed.

(** ** Construction of bounding boxes *)

Lemma getitem_raises {A : Type} (l : list A) (i : nat) (e : exn) :
  getitem l i = Raise e -> e = IndexError.
Proof.
  unfold getitem. destruct (nth_error l i); [discriminate|].
  intros H. now injection H.
Qed.

Lemma getitem_short {A : Type} (l : list A) (i : nat) :
  (List.length l <= i)%nat -> getitem l i = Raise IndexError.
Proof.
  intros H. unfold getitem. now rewrite (proj2 (nth_error_None l i) H).
Qed.

Lemma item2_raises (l : json_bbox) (i k : nat) (e : exn) :
  item2 l i k = Raise e -> e = IndexError.
Proof.
  unfold item2. destruct (getitem l i) eqn:H1; simpl.
  - apply getitem_raises.
  - intros H. injection H as <-. now apply getitem_raises in H1.
Qed.

Lemma keyed_raises (k : nat) (l : json_bbox) (e : exn) :
  keyed k l = Raise e -> e = IndexError.
Proof.
  induction l as [|p l IH]; simpl; [discriminate|].
  unfold itemgetter. destruct (getitem p k) eqn:H1; simpl.
  - destruct (keyed k l); simpl; [discriminate|].
    intros H. injection H as <-. now apply IH.
  - intros H. injection H as <-. now apply getitem_raises in H1.
Qed.

Lemma keyed_length (k : nat) (l : json_bbox) (kl : list (R * list R)) :
  keyed k l = Ok kl -> List.length kl = List.length l.
Proof.
  revert kl. induction l as [|p l IH]; simpl; intros kl.
  - intros H. now injection H as <-.
  - destruct (itemgetter k p); simpl; [|discriminate].
    destruct (keyed k l) as [r|]; simpl; [|discriminate].
    intros H. injection H as <-. simpl. f_equal. now apply IH.
Qed.

Lemma insert_by_key_length (kp : R * list R) (l : list (R * list R)) :
  List.length (insert_by_key kp l) = S (List.length l).
Proof.
  induction l as [|kq l IH]; simpl; [reflexivity|].
  destruct (Rle_dec (fst kp) (fst kq)); simpl; [reflexivity | now rewrite IH].
Qed.

Lemma sort_by_key_length (l : list (R * list R)) :
  List.length (sort_by_key l) = List.length l.
Proof.
  induction l as [|kp l IH]; simpl; [reflexivity|].
  now rewrite insert_by_key_length, IH.
Qed.

Lemma sorted_raises (k : nat) (l : json_bbox) (e : exn) :
  sorted k l = Raise e -> e = IndexError.
Proof.
  unfold sorted. destruct (keyed k l) eqn:H1; simpl; [discriminate|].
  intros H. injection H as <-. now apply keyed_raises in H1.
Qed.

Lemma sorted_length (k : nat) (l l' : json_bbox) :
  sorted k l = Ok l' -> List.length l' = List.length l.
Proof.
  unfold sorted. destruct (keyed k l) as [kl|] eqn:H1; simpl; [|discriminate].
  intros H. injection H as <-.
  rewrite length_map, sort_by_key_length. now apply keyed_length in H1.
Qed.

(** The only exception [BBox.__init__] can raise is [IndexError]. *)
Lemma BBox_init_raises (bbox : json_bbox) (e : exn) :
  BBox_init bbox = Raise e -> e = IndexError.
Proof.
  unfold BBox_init.
  repeat match goal with
         | |- context [rbind (sorted ?k ?l) _] =>
             let H := fresh "H" in
             destruct (sorted k l) eqn:H; simpl;
             [| intros H'; injection H' as <-; now apply sorted_raises in H]
         | |- context [rbind (item2 ?l ?i ?k) _] =>
             let H := fresh "H" in
             destruct (item2 l i k) eqn:H; simpl;
             [| intros H'; injection H' as <-; now apply item2_raises in H]
         end.
  discriminate.
Qed.

(** With fewer than eight points the element numbered 7 of the sorted
    list is missing, if nothing was missing before. *)
Lemma BBox_init_short (bbox : json_bbox) :
  (List.length bbox < 8)%nat -> BBox_init bbox = Raise IndexError.
Proof.
  intros Hlen.
  destruct (BBox_init bbox) as [b|e] eqn:Hb.
  - exfalso. revert Hb. unfold BBox_init.
    destruct (sorted 0 bbox) as [xs|] eqn:Hs; simpl; [|discriminate].
    destruct (item2 xs 0 0); simpl; [|discriminate].
    apply sorted_length in Hs.
    unfold item2 at 1. rewrite getitem_short by lia. simpl. discriminate.
  - f_equal. now apply BBox_init_raises in Hb.
Qed.

(** C9, as the code has it. Built from fewer than eight points,
    [BBox.__init__] raises the built-in [IndexError]: no [BBox] results,
    and the exception is not of a class of its own. *)
Theorem C9_short_bbox_index_error (bbox : json_bbox) :
  (List.length bbox < 8)%nat ->
  BBox_init bbox = Raise IndexError
  /\ (forall b, BBox_init bbox <> Ok b)
  /\ (forall e, BBox_init bbox = Raise e -> exn_class e = "IndexError").
Proof.
  intros Hlen. rewrite (BBox_init_short bbox Hlen).
  repeat split.
  - intros b; discriminate.
  - intros e H. now injection H as <-.
Qed.

Lemma C9_short_bbox_index_error_witness :
  BBox_init (firstn 7 (corners 0 6 0 6 0 1)) = Raise IndexError
  /\ (forall b, BBox_init (firstn 7 (corners 0 6 0 6 0 1)) <> Ok b)
  /\ (forall e, BBox_init (firstn 7 (corners 0 6 0 6 0 1)) = Raise e ->
                exn_class e = "IndexError").
Proof.
  apply (C9_short_bbox_index_error (firstn 7 (corners 0 6 0 6 0 1))).
  simpl. lia.
Defined.

(** C9, as the specification words it, fails: seven corners of the desk
    make [BBox.__init__] raise, but no exception of a class
    [InvalidGeometry]. *)
Lemma C9_invalid_geometry_counterexample :
  ~ (exists e, BBox_init (firstn 7 (corners 0 6 0 6 0 1)) = Raise e
               /\ exn_class e = "InvalidGeometry").
Proof.
  intros (e & He & Hc).
  rewrite BBox_init_short in He by (simpl; lia).
  injection He as <-. discriminate.
Qed.

Ltac decide_Rle :=
  repeat match goal with
         | |- context [Rle_dec ?a ?b] =>
             destruct (Rle_dec a b); [try (exfalso; lra) | try (exfalso; lra)];
             simpl
         end.

(** On the eight corners of a box, [BBox.__init__] finds its extents. *)
Lemma BBox_init_corners (x0 x1 y0 y1 z0 z1 : R) :
  x0 <= x1 -> y0 <= y1 -> z0 <= z1 ->
  BBox_init (corners x0 x1 y0 y1 z0 z1) = Ok (mkBBox x0 x1 y0 y1 z0 z1).
Proof.
  intros Hx Hy Hz.
  destruct (Rle_lt_or_eq_dec _ _ Hx) as [Hx'|Hx'];
    destruct (Rle_lt_or_eq_dec _ _ Hy) as [Hy'|Hy'];
    destruct (Rle_lt_or_eq_dec _ _ Hz) as [Hz'|Hz'];
    unfold BBox_init, corners, sorted; simpl;
    decide_Rle; try reflexivity; subst; reflexivity.
Qed.

(** ** Distance ranges *)

Ltac eq_R := repeat (f_equal; try lra).

Ltac run_calc H :=
  let H1 := fresh in let H2 := fresh in let H3 := fresh in
  destruct H as (H1 & H2 & H3);
  unfold calc_distance_range, bind, get_root, lift, rpc, ret;
  rewrite H1, H2, H3; cbn [fst snd];
  unfold get_x_min, get_x_max, get_y_min, get_y_max.

(** C4, as the code has it. For the four diagonal directions
    [calc_distance_range] returns [min_dist = sqrt (2 * min (ga, gb)^2) + c]
    over the gaps from the parent's position to the edges of its own box,
    and, for a child whose distance class is not [close],
    [max_dist = sqrt (2 * min (Ga, Gb)^2) - c] over the gaps to the edges
    of the root surface's box, with [c] half of the child's smaller
    footprint dimension times [OBJECT_SCALE]; for a [close] child this
    [max_dist] is narrowed before it is returned. *)
Theorem C4_diagonal_ranges (E : Environment) (w : World E)
        (self object : ObjectNode) (distance : string)
        (x y z : R) (ob rb : BBox) :
  placed E w self x y z ob rb ->
  let o := local_bbox (base object) in
  let c := (Rmin (x_max o - x_min o) (y_max o - y_min o) * OBJECT_SCALE) / 2 in
  let range ga gb Ga Gb :=
    let mn := sqrt (2 * Rmin ga gb ^ 2) + c in
    let mx := sqrt (2 * Rmin Ga Gb ^ 2) - c in
    (Ok (mn, if distance =? "close" then ((mx + mn) / 2 + mn) / 2 else mx), w) in
  calc_distance_range E self object "right_back" distance w
  = range (x - x_min ob) (y_max ob - y) (x - x_min rb) (y_max rb - y)
  /\ calc_distance_range E self object "right_front" distance w
     = range (x_max ob - x) (y_max ob - y) (x_max rb - x) (y_max rb - y)
  /\ calc_distance_range E self object "left_front" distance w
     = range (x_max ob - x) (y - y_min ob) (x_max rb - x) (y - y_min rb)
  /\ calc_distance_range E self object "left_back" distance w
     = range (x - x_min ob) (y - y_min ob) (x - x_min rb) (y - y_min rb).
Proof.
  intros H o c range. subst range o c.
  repeat split; run_calc H; cbn [String.eqb Ascii.eqb Bool.eqb];
    destruct (distance =? "close"); reflexivity.
Qed.

(** Whatever the direction, a successful lookup makes
    [calc_distance_range] return, the world unchanged, and the class
    [close] only replaces the upper end by the twofold midpoint. *)
Lemma calc_distance_range_close (E : Environment) (w : World E)
      (self object : ObjectNode) (direction : string)
      (x y z : R) (ob rb : BBox) :
  placed E w self x y z ob rb ->
  exists mn mx,
    calc_distance_range E self object direction "any" w = (Ok (mn, mx), w)
    /\ calc_distance_range E self object direction "close" w
       = (Ok (mn, ((mx + mn) / 2 + mn) / 2), w).
Proof.
  intros H. run_calc H.
  match goal with
  | |- context [let '(a, b) := ?p in _] => destruct p as [mn mx]
  end.
  exists mn, mx. split; reflexivity.
Qed.

(** C5, as the code has it. For a [close] child the returned [max_dist]
    is [min_dist + (max_dist_any - min_dist) * 1/4], where [max_dist_any]
    is what the same call returns for the class [any]: the two midpoints
    leave a quarter of the range, not three quarters. *)
Theorem C5_close_keeps_a_quarter (E : Environment) (w : World E)
        (self object : ObjectNode) (direction : string)
        (x y z : R) (ob rb : BBox) :
  placed E w self x y z ob rb ->
  exists mn mx_any mx_close,
    calc_distance_range E self object direction "any" w = (Ok (mn, mx_any), w)
    /\ calc_distance_range E self object direction "close" w
       = (Ok (mn, mx_close), w)
    /\ mx_close = mn + (mx_any - mn) * (1 / 4).
Proof.
  intros H.
  destruct (calc_distance_range_close E w self object direction x y z ob rb H)
    as (mn & mx & Hany & Hclose).
  exists mn, mx, (((mx + mn) / 2 + mn) / 2).
  repeat split; try assumption. lra.
Qed.

(** C6, as the code has it. For the same parent, direction and child the
    class [close] returns the same [min_dist] as the class [any]; its
    [max_dist] is at most that of [any] when the range of [any] is not
    inverted ([min_dist <= max_dist]), and strictly above it when the
    range is inverted. *)
Theorem C6_close_within_any (E : Environment) (w : World E)
        (self object : ObjectNode) (direction : string)
        (x y z : R) (ob rb : BBox) :
  placed E w self x y z ob rb ->
  exists mn mx_any mx_close,
    calc_distance_range E self object direction "any" w = (Ok (mn, mx_any), w)
    /\ calc_distance_range E self object direction "close" w
       = (Ok (mn, mx_close), w)
    /\ (mn <= mx_any -> mx_close <= mx_any)
    /\ (mx_any < mn -> mx_any < mx_close).
Proof.
  intros H.
  destruct (calc_distance_range_close E w self object direction x y z ob rb H)
    as (mn & mx & Hany & Hclose).
  exists mn, mx, (((mx + mn) / 2 + mn) / 2).
  repeat split; try assumption; intros; lra.
Qed.

(** ** The desk with the monitor on it *)

Lemma desk_world1_placed (direction distance : string) :
  placed desk (desk_world1 direction distance) (monitor direction distance)
         (49 / 10) 3 (1 + 1 / 2 + Z_DIST) monitor_bbox table_bbox.
Proof.
  unfold placed. repeat split.
  simpl. unfold table_bbox.
  rewrite BBox_init_corners by lra. eq_R.
Qed.

Lemma Rmin_same (a b : R) : a = b -> Rmin a b = a.
Proof. intros ->. apply Rmin_left. lra. Qed.

(** The ranges the keyboard gets behind and in front of the monitor. *)
Lemma desk_range_back (distance : string) :
  calc_distance_range desk (monitor "back" distance) keyboard "back" distance
                      (desk_world1 "back" distance)
  = (Ok (9 / 10, if distance =? "close" then 9 / 5 else 9 / 2),
     desk_world1 "back" distance).
Proof.
  pose proof (desk_world1_placed "back" distance) as H. run_calc H.
  cbn [String.eqb Ascii.eqb Bool.eqb keyboard base local_bbox calc_anchors
       monitor_bbox table_bbox x_min x_max y_min y_max].
  rewrite Rmin_same by lra. unfold OBJECT_SCALE.
  destruct (distance =? "close"); eq_R.
Qed.

Lemma desk_range_front (distance : string) :
  calc_distance_range desk (monitor "front" distance) keyboard "front" distance
                      (desk_world1 "front" distance)
  = (Ok (9 / 10, if distance =? "close" then 17 / 20 else 7 / 10),
     desk_world1 "front" distance).
Proof.
  pose proof (desk_world1_placed "front" distance) as H. run_calc H.
  cbn [String.eqb Ascii.eqb Bool.eqb keyboard base local_bbox calc_anchors
       monitor_bbox table_bbox x_min x_max y_min y_max].
  rewrite Rmin_same by lra. unfold OBJECT_SCALE.
  destruct (distance =? "close"); eq_R.
Qed.

(** ** The sampling loop *)

Section Loop.

Variable E : Environment.
Variable body : M E bool.

Lemma world_after_S (k : nat) (w : World E) :
  world_after E body (S k) w = snd (body (world_after E body k w)).
Proof.
  revert w. induction k as [|k IH]; intros w; [reflexivity|].
  change (world_after E body (S (S k)) w)
    with (world_after E body (S k) (snd (body w))).
  now rewrite IH.
Qed.

Lemma verdict_0 (w : World E) : verdict E body 0 w = fst (body w).
Proof. reflexivity. Qed.

Lemma verdict_S (k : nat) (w : World E) :
  verdict E body (S k) w = verdict E body k (snd (body w)).
Proof. reflexivity. Qed.

(** All the passes reject: the loop runs out with [i] at the bound. *)
Lemma while_loop_rejects (fuel : nat) :
  forall (i : nat) (w : World E),
    (i + fuel <= MAX_NUM_OF_SAMPLES)%nat ->
    (forall k, (k < fuel)%nat -> verdict E body k w = Ok false) ->
    while_loop E body fuel i w = (Ok (i + fuel)%nat, world_after E body fuel w).
Proof.
  induction fuel as [|fuel IH]; intros i w Hle Hrej; simpl.
  - unfold ret. now rewrite Nat.add_0_r.
  - destruct (Nat.ltb_spec i MAX_NUM_OF_SAMPLES) as [_|Hge]; [|lia].
    pose proof (Hrej 0%nat ltac:(lia)) as H0. rewrite verdict_0 in H0.
    unfold bind. destruct (body w) as [r w'] eqn:Hb. simpl in H0. subst r.
    simpl. rewrite IH.
    + f_equal. f_equal. lia.
    + lia.
    + intros k Hk. specialize (Hrej (S k) ltac:(lia)).
      rewrite verdict_S, Hb in Hrej. exact Hrej.
Qed.

(** The pass numbered [k] is the first that does not reject: the loop
    ends there, with [i] advanced by [k] if the pass accepts and with the
    exception of the pass if it raises. *)
Lemma while_loop_stops (fuel : nat) :
  forall (i k : nat) (w : World E),
    (i + fuel <= MAX_NUM_OF_SAMPLES)%nat ->
    (k < fuel)%nat ->
    (forall j, (j < k)%nat -> verdict E body j w = Ok false) ->
    verdict E body k w <> Ok false ->
    while_loop E body fuel i w
    = (match verdict E body k w with
       | Ok _ => Ok (i + k)%nat
       | Raise e => Raise e
       end, world_after E body (S k) w).
Proof.
  induction fuel as [|fuel IH]; intros i k w Hle Hk Hrej Hstop; [lia|].
  simpl. destruct (Nat.ltb_spec i MAX_NUM_OF_SAMPLES) as [_|Hge]; [|lia].
  destruct k as [|k].
  - rewrite verdict_0 in *. unfold bind.
    destruct (body w) as [[[|]|e] w'] eqn:Hb; simpl in *.
    + unfold ret. now rewrite Nat.add_0_r.
    + congruence.
    + reflexivity.
  - pose proof (Hrej 0%nat ltac:(lia)) as H0. rewrite verdict_0 in H0.
    unfold bind. destruct (body w) as [r w'] eqn:Hb. simpl in H0. subst r.
    simpl. rewrite (IH (i + 1)%nat k w'); try lia.
    + rewrite verdict_S, Hb. simpl.
      destruct (verdict E body k w'); [|reflexivity].
      f_equal. f_equal. lia.
    + intros j Hj. specialize (Hrej (S j) ltac:(lia)).
      rewrite verdict_S, Hb in Hrej. exact Hrej.
    + rewrite verdict_S, Hb in Hstop. exact Hstop.
Qed.

(** Among the first [n] passes either all reject or there is a first one
    that does not. *)
Lemma first_stop (n : nat) (w : World E) :
  (forall k, (k < n)%nat -> verdict E body k w = Ok false)
  \/ exists k, (k < n)%nat
               /\ (forall j, (j < k)%nat -> verdict E body j w = Ok false)
               /\ verdict E body k w <> Ok false.
Proof.
  induction n as [|n [IH|IH]].
  - left. intros k Hk. lia.
  - destruct (verdict E body n w) as [[|]|e] eqn:Hv.
    + right. exists n. repeat split; [lia | auto | congruence].
    + left. intros k Hk. destruct (Nat.eq_dec k n) as [->|]; [assumption|].
      apply IH. lia.
    + right. exists n. repeat split; [lia | auto | congruence].
  - right. destruct IH as (k & Hk & Hrej & Hstop).
    exists k. repeat split; [lia | assumption | assumption].
Qed.


End Loop.

(** ** One candidate *)

Section Candidate.

Variable E : Environment.

(** The bounding box the simulator reports for [c] once it has been given
    the candidate pose. *)
Let posed (c : ObjectNode) (x y z : R) (w : World E) : sim E :=
  set_object_pose E (name (base c))
    (transform_to_obj_frame E (name (root_base (root E w))) (x, y, z) (morse E w))
    (quaternion_about_axis (get_yaw c) (0, 0, 1)) (morse E w).

Lemma try_candidate_eq (c : ObjectNode) (x y z : R) (w : World E) :
  try_candidate E c x y z w =
  if within_root_bbox (root E w) c x y then
    let pos := transform_to_obj_frame E (name (root_base (root E w))) (x, y, z)
                                      (morse E w) in
    let json := get_object_global_bbox E (name (base c)) (posed c x y z w) in
    match BBox_init json with
    | Raise e => (Raise e, mkWorld E (posed c x y z w) (rand E w) (root E w))
    | Ok global_bbox =>
        match in_collision (root E w) global_bbox with
        | Raise e => (Raise e, mkWorld E (posed c x y z w) (rand E w) (root E w))
        | Ok true => (Ok false, mkWorld E (posed c x y z w) (rand E w) (root E w))
        | Ok false =>
            (Ok true,
             mkWorld E (posed c x y z w) (rand E w)
               (record_placement (root E w) (name (base c)) pos
                  (quaternion_about_axis (get_yaw c) (0, 0, 1))
                  global_bbox json))
        end
    end
  else (Ok false, w).
Proof.
  unfold try_candidate, bind, get_root, put_root, rpc, rpc_set, lift, ret, posed.
  destruct (within_root_bbox (root E w) c x y); [|reflexivity].
  cbn [root morse rand].
  destruct (BBox_init _) as [gb|e]; [|reflexivity].
  destruct (in_collision (root E w) gb) as [[|]|e]; reflexivity.
Qed.


(** A candidate can only raise what [BBox.__init__] raises. *)
Lemma try_candidate_raises (c : ObjectNode) (x y z : R) (w : World E) (e : exn) :
  fst (try_candidate E c x y z w) = Raise e -> e = IndexError.
Proof.
  rewrite try_candidate_eq.
  destruct (within_root_bbox (root E w) c x y); [|discriminate].
  cbv zeta. destruct (BBox_init _) as [gb|e'] eqn:Hb.
  - destruct (in_collision_spec (root E w) gb) as (r & -> & _).
    destruct r; discriminate.
  - simpl. intros H. injection H as <-. now apply BBox_init_raises in Hb.
Qed.

Lemma root_attempt_raises (c : ObjectNode) (x_mu y_mu : R) (w : World E) (e : exn) :
  fst (root_attempt E c x_mu y_mu w) = Raise e -> e = IndexError.
Proof.
  unfold root_attempt, gauss, draw, bind, get_root, ret. cbn [root rand morse].
  destruct (normal_variate E (rand E w)) as [z1 g1]. cbn [root rand morse].
  destruct (normal_variate E g1) as [z2 g2]. cbn [root rand morse].
  apply try_candidate_raises.
Qed.

Lemma relative_attempt_raises (c : ObjectNode) (p : Relative) (w : World E)
      (e : exn) :
  fst (relative_attempt E c p w) = Raise e -> e = IndexError.
Proof.
  unfold relative_attempt, draw_polar, gauss, uniform, draw, bind, get_root, ret.
  cbn [root rand morse].
  destruct (normal_variate E (rand E w)) as [z1 g1]. cbn [root rand morse].
  destruct (random E g1) as [u g2]. cbn [root rand morse].
  apply try_candidate_raises.
Qed.

(** The lookup of an anchor always returns. *)
Lemma get_anchor_total (self : AbstractNode) (a : string) :
  exists x_mu y_mu, get_anchor self a = Ok (x_mu, y_mu).
Proof.
  unfold get_anchor.
  repeat match goal with
         | |- context [if ?b then _ else _] => destruct b
         end;
    match goal with
    | |- exists x y, Ok ?p = _ => exists (fst p), (snd p); now destruct p
    end.
Qed.

End Candidate.

(** ** The two placement loops *)

Lemma sample_root_child_eq (E : Environment) (c : ObjectNode) (anchor : string)
      (w : World E) (x_mu y_mu : R) :
  get_anchor (root_base (root E w)) anchor = Ok (x_mu, y_mu) ->
  sample_root_child E c anchor w
  = bind E (while_loop E (root_attempt E c x_mu y_mu) MAX_NUM_OF_SAMPLES 0)
         (fun i => if (MAX_NUM_OF_SAMPLES <=? i)%nat
                   then raise E (PlacementException (name (base c)))
                   else ret E tt) w.
Proof.
  intros Ha. unfold sample_root_child.
  unfold bind at 1. unfold get_root. cbv beta iota.
  unfold bind at 1. unfold lift. rewrite Ha. reflexivity.
Qed.

Lemma sample_relative_child_eq (E : Environment) (self c : ObjectNode)
      (direction distance : string) (w w1 : World E) (p : Relative) :
  relative_setup E self c direction distance w = (Ok p, w1) ->
  sample_relative_child E self c direction distance w
  = bind E (while_loop E (relative_attempt E c p) MAX_NUM_OF_SAMPLES 0)
         (fun i => if (MAX_NUM_OF_SAMPLES <=? i)%nat
                   then raise E (PlacementException (name (base c)))
                   else ret E tt) w1.
Proof.
  intros Hs. unfold sample_relative_child.
  unfold bind at 1. rewrite Hs. reflexivity.
Qed.


(** ** The keyboard in front of the monitor *)

Lemma desk_setup_front (distance : string) :
  relative_setup desk (monitor "front" distance) keyboard "front" distance
                 (desk_world1 "front" distance)
  = (Ok (desk_relative distance), desk_world1 "front" distance).
Proof.
  unfold relative_setup.
  unfold bind at 1. unfold get_root. cbv beta iota.
  destruct (desk_world1_placed "front" distance) as (H1 & _ & _).
  unfold bind at 1. unfold lift. rewrite H1. cbv beta iota.
  unfold bind at 1.
  change (get_direction "front") with (Ok Direction.front). cbv beta iota.
  unfold bind at 1. unfold rpc. cbv beta iota.
  unfold bind at 1.
  change (get_object_pose desk _ _) with ((0, 0, 0), [1; 0; 0; 0]).
  cbn [fst]. cbv beta iota.
  rewrite desk_range_front. reflexivity.
Qed.

(** The angle and the distance of a candidate: the two draws are made,
    and the distance is [min_dist + (max_dist - min_dist) * u], whatever
    the order of [min_dist] and [max_dist]. *)
Lemma draw_polar_eq (E : Environment) (p : Relative) (w : World E) :
  draw_polar E p w =
  (let (z, g1) := normal_variate E (rand E w) in
   let (u, g2) := random E g1 in
   let phi := phi_mu p + z * DIRECTION_SIGMA in
   let phi := if Rltb phi 0 then phi + 2 * PI else phi in
   let phi := if Rgtb phi (2 * PI) then phi - 2 * PI else phi in
   (Ok (phi, min_dist p + (max_dist p - min_dist p) * u),
    mkWorld E (morse E w) g2 (root E w))).
Proof.
  unfold draw_polar, gauss, uniform, draw, bind, ret. cbn [rand morse root].
  destruct (normal_variate E (rand E w)) as [z g1]. cbn [rand morse root].
  destruct (random E g1) as [u g2]. reflexivity.
Qed.

Lemma desk_draw_polar (w : World desk) :
  rand desk w <> 0%nat ->
  draw_polar desk (desk_relative "any") w
  = (Ok (PI / 2, 4 / 5),
     mkWorld desk (morse desk w) (S (S (rand desk w))) (root desk w)).
Proof.
  intros Hr. rewrite draw_polar_eq.
  cbn [desk normal_variate random desk_relative phi_mu min_dist max_dist].
  destruct (rand desk w) as [|g]; [congruence|].
  cbn [Nat.eqb String.eqb Ascii.eqb Bool.eqb].
  pose proof PI_RGT_0 as Hpi.
  replace (PI / 2 + 0 * DIRECTION_SIGMA) with (PI / 2) by lra.
  rewrite (proj2 (Rltb_false (PI / 2) 0)) by lra.
  rewrite (proj2 (Rgtb_false (PI / 2) (2 * PI))) by lra.
  eq_R.
Qed.

(** With the monitor at (49/10, 3) every candidate for the keyboard lies
    at (57/10, 3), outside the shrunk desk: the pass rejects. *)
Lemma desk_attempt_rejects (w : World desk) :
  root desk w = desk_root1 "front" "any" ->
  rand desk w <> 0%nat ->
  relative_attempt desk keyboard (desk_relative "any") w
  = (Ok false, mkWorld desk (morse desk w) (S (S (rand desk w))) (root desk w)).
Proof.
  intros Hroot Hr. unfold relative_attempt.
  unfold bind at 1. rewrite (desk_draw_polar w Hr). cbv beta iota.
  unfold bind at 1. unfold get_root. cbv beta iota.
  rewrite try_candidate_eq. cbn [root morse rand].
  rewrite sin_PI2, cos_PI2.
  destruct (within_root_bbox _ _ _ _) eqn:Hin; [exfalso|reflexivity].
  apply within_root_bbox_true in Hin. rewrite Hroot in Hin.
  cbn in Hin. unfold OBJECT_SCALE in Hin.
  rewrite Rmin_same in Hin by lra. lra.
Qed.

Lemma desk_world_after (k : nat) :
  forall w : World desk,
    root desk w = desk_root1 "front" "any" ->
    rand desk w <> 0%nat ->
    world_after desk (relative_attempt desk keyboard (desk_relative "any")) k w
    = mkWorld desk (morse desk w) (rand desk w + 2 * k)%nat (root desk w).
Proof.
  induction k as [|k IH]; intros w Hroot Hr.
  - destruct w as [s g r]. cbn [world_after morse rand root]. f_equal. lia.
  - cbn [world_after]. rewrite (desk_attempt_rejects w Hroot Hr). cbn [snd].
    rewrite IH; cbn [morse rand root]; [f_equal; lia | assumption | lia].
Qed.

Lemma desk_verdict (k : nat) (w : World desk) :
  root desk w = desk_root1 "front" "any" ->
  rand desk w <> 0%nat ->
  verdict desk (relative_attempt desk keyboard (desk_relative "any")) k w
  = Ok false.
Proof.
  intros Hroot Hr. unfold verdict.
  rewrite (desk_world_after k w Hroot Hr).
  rewrite desk_attempt_rejects; cbn [morse rand root]; [reflexivity | assumption | lia].
Qed.

(** The loop for the keyboard makes its hundred passes, two draws each,
    and raises. *)
Lemma desk_sample_fails :
  sample_relative_child desk (monitor "front" "any") keyboard "front" "any"
                        (desk_world1 "front" "any")
  = (Raise (PlacementException "keyboard1"),
     mkWorld desk (morse desk (desk_world1 "front" "any")) 202%nat
             (desk_root1 "front" "any")).
Proof.
  rewrite (sample_relative_child_eq desk _ _ _ _ _ _ _ (desk_setup_front "any")).
  unfold bind.
  rewrite (while_loop_rejects desk _ MAX_NUM_OF_SAMPLES 0).
  - rewrite desk_world_after; [reflexivity | reflexivity | discriminate].
  - lia.
  - intros k _. apply desk_verdict; [reflexivity | discriminate].
Qed.

(** ** The monitor on the desk *)

(** The first pass of [place_objects] for the monitor draws (49/10, 3)
    around the anchor [south] and accepts it. *)
Lemma desk_monitor_attempt (direction distance : string) :
  root_attempt desk (monitor direction distance)
               (fst (south table_node)) (snd (south table_node))
               (desk_world0 direction distance)
  = (Ok true, desk_world1 direction distance).
Proof.
  unfold root_attempt, gauss, draw, bind, get_root, ret.
  cbn [desk normal_variate rand morse root desk_world0 Nat.eqb].
  match goal with
  | |- try_candidate _ _ ?x ?y ?z _ = _ =>
      replace x with (49 / 10)
        by (cbn; unfold get_x_max, get_x_min; cbn; lra);
      replace y with 3
        by (cbn; unfold get_y_max, get_y_min; cbn; lra);
      replace z with (1 + 1 / 2 + Z_DIST)
        by (cbn; unfold get_z_max, get_z_min; cbn; lra)
  end.
  rewrite try_candidate_eq.
  assert (Hin : within_root_bbox (desk_root direction distance)
                                 (monitor direction distance) (49 / 10) 3 = true).
  { apply within_root_bbox_true. cbn. unfold OBJECT_SCALE.
    rewrite Rmin_same by lra. lra. }
  cbn [root morse rand desk_world0]. rewrite Hin.
  cbn [desk transform_to_obj_frame set_object_pose get_object_global_bbox
       monitor base name calc_anchors get_yaw dict_set].
  change (desk_pose "monitor1" _)
    with ((49 / 10, 3, 1 + 1 / 2 + Z_DIST), quaternion_about_axis 0 (0, 0, 1)).
  cbn [fst].
  change (desk_box "monitor1" (49 / 10, 3, 1 + 1 / 2 + Z_DIST))
    with (corners (49 / 10 - 1 / 2) (49 / 10 + 1 / 2) (3 - 1 / 2) (3 + 1 / 2)
                  (1 + 1 / 2 + Z_DIST - 1 / 2) (1 + 1 / 2 + Z_DIST + 1 / 2)).
  rewrite BBox_init_corners by (unfold Z_DIST; lra).
  reflexivity.
Qed.

Lemma desk_sample_monitor (direction distance : string) :
  sample_root_child desk (monitor direction distance) "south"
                    (desk_world0 direction distance)
  = (Ok tt, desk_world1 direction distance).
Proof.
  rewrite (sample_root_child_eq desk _ "south" _
             (fst (south table_node)) (snd (south table_node)))
    by reflexivity.
  unfold bind.
  rewrite (while_loop_stops desk _ MAX_NUM_OF_SAMPLES 0 0).
  - unfold verdict. cbn [world_after]. rewrite desk_monitor_attempt.
    reflexivity.
  - lia.
  - unfold MAX_NUM_OF_SAMPLES. lia.
  - intros j Hj. lia.
  - rewrite verdict_0, desk_monitor_attempt. discriminate.
Qed.

(** A whole pass of [place_objects] over the desk, the monitor at the
    anchor [south] and the keyboard in front of the monitor: the monitor is
    placed at the first pass, the keyboard is given up after a hundred. *)
Lemma desk_place_objects :
  place_objects desk 1 (desk_world0 "front" "any")
  = (Raise (PlacementException "keyboard1"),
     mkWorld desk (morse desk (desk_world1 "front" "any")) 202%nat
             (desk_root1 "front" "any")).
Proof.
  unfold place_objects.
  unfold bind at 1. unfold get_root. cbv beta iota.
  cbn [root desk_world0 desk_root root_children for_each].
  unfold bind at 1. unfold bind at 1. unfold bind at 1.
  rewrite desk_sample_monitor. cbv beta iota.
  unfold bind at 1.
  cbn [place_children monitor children for_each].
  unfold bind at 1. unfold bind at 1.
  change (mkObjectNode _ 0 [(keyboard, "front", "any")])
    with (monitor "front" "any").
  rewrite desk_sample_fails. reflexivity.
Qed.

(** ** The claims on the desk *)


Lemma C3_in_collision_iff_witness :
  let b1 := mkBBox 0 1 0 1 0 1 in
  let b2 := mkBBox 4 5 4 5 0 1 in
  let self := with_global_bboxes (desk_root "front" "any")
                                 [("pc1", b1); ("monitor1", b2)] in
  in_collision (with_global_bboxes self [("monitor1", b2); ("pc1", b1)])
               monitor_bbox
  = in_collision self monitor_bbox.
Proof.
  intros b1 b2 self.
  refine (proj2 (proj2 (proj2 (proj2
            (C3_in_collision_iff self monitor_bbox 0 0
               (fun _ _ => 0) (fun _ _ => 0)))))
            [("monitor1", b2); ("pc1", b1)] _ _).
  - simpl. repeat constructor; simpl; intuition discriminate.
  - apply perm_swap.
Defined.

Lemma C4_diagonal_ranges_witness :
  let o := local_bbox (base keyboard) in
  let c := (Rmin (x_max o - x_min o) (y_max o - y_min o) * OBJECT_SCALE) / 2 in
  calc_distance_range desk (monitor "right_back" "any") keyboard
                      "right_back" "any" (desk_world1 "right_back" "any")
  = (Ok (sqrt (2 * Rmin (49 / 10 - x_min monitor_bbox)
                        (y_max monitor_bbox - 3) ^ 2) + c,
         sqrt (2 * Rmin (49 / 10 - x_min table_bbox)
                        (y_max table_bbox - 3) ^ 2) - c),
     desk_world1 "right_back" "any").
Proof.
  exact (proj1 (C4_diagonal_ranges desk _ (monitor "right_back" "any") keyboard
                  "any" _ _ _ _ _ (desk_world1_placed "right_back" "any"))).
Defined.

Lemma sqrt_between (a x b : R) :
  0 <= a -> a * a <= x -> x <= b * b -> 0 <= b -> a <= sqrt x <= b.
Proof.
  intros Ha Hax Hxb Hb. split.
  - rewrite <- (sqrt_square a Ha). now apply sqrt_le_1_alt.
  - rewrite <- (sqrt_square b Hb). now apply sqrt_le_1_alt.
Qed.

(** C4, as the specification words it, fails for a [close] child: for the
    keyboard right and back of the monitor the returned [max_dist] is not
    [sqrt (2 * min (Ga, Gb)^2) - c]. *)
Lemma C4_close_counterexample :
  let o := local_bbox (base keyboard) in
  let c := (Rmin (x_max o - x_min o) (y_max o - y_min o) * OBJECT_SCALE) / 2 in
  exists mn mx,
    calc_distance_range desk (monitor "right_back" "close") keyboard
                        "right_back" "close" (desk_world1 "right_back" "close")
    = (Ok (mn, mx), desk_world1 "right_back" "close")
    /\ mx <> sqrt (2 * Rmin (49 / 10 - x_min table_bbox)
                            (y_max table_bbox - 3) ^ 2) - c.
Proof.
  intros o c.
  pose proof (desk_world1_placed "right_back" "close") as H. run_calc H.
  cbn [String.eqb Ascii.eqb Bool.eqb keyboard base local_bbox calc_anchors
       monitor_bbox table_bbox x_min x_max y_min y_max].
  eexists _, _. split; [reflexivity|].
  subst o c.
  cbn [keyboard base local_bbox calc_anchors table_bbox x_min x_max y_min y_max].
  rewrite (Rmin_same (2 / 5 - - (2 / 5))) by lra.
  rewrite (Rmin_same (49 / 10 - (49 / 10 - 1 / 2))) by lra.
  rewrite (Rmin_right (49 / 10 - 0)) by lra.
  unfold OBJECT_SCALE.
  assert (Hlo : sqrt (2 * (49 / 10 - (49 / 10 - 1 / 2)) ^ 2) <= 1)
    by (apply (sqrt_between 0 _ 1); lra).
  assert (Hhi : 4 <= sqrt (2 * (6 - 3) ^ 2))
    by (apply (sqrt_between 4 _ 5); lra).
  lra.
Qed.

Lemma C5_close_keeps_a_quarter_witness :
  exists mn mx_any mx_close,
    calc_distance_range desk (monitor "back" "any") keyboard "back" "any"
                        (desk_world1 "back" "any")
    = (Ok (mn, mx_any), desk_world1 "back" "any")
    /\ calc_distance_range desk (monitor "back" "any") keyboard "back" "close"
                           (desk_world1 "back" "any")
       = (Ok (mn, mx_close), desk_world1 "back" "any")
    /\ mx_close = mn + (mx_any - mn) * (1 / 4).
Proof.
  exact (C5_close_keeps_a_quarter desk _ (monitor "back" "any") keyboard "back"
           _ _ _ _ _ (desk_world1_placed "back" "any")).
Defined.

(** C5, as the specification words it, fails: behind the monitor the class
    [any] gives the keyboard the range from 9/10 to 9/2 and the class
    [close] the range from 9/10 to 9/5, which is not
    [9/10 + (9/2 - 9/10) * 3/4 = 18/5]. *)
Lemma C5_three_quarters_counterexample :
  exists mn mx_any mx_close,
    calc_distance_range desk (monitor "back" "any") keyboard "back" "any"
                        (desk_world1 "back" "any")
    = (Ok (mn, mx_any), desk_world1 "back" "any")
    /\ calc_distance_range desk (monitor "back" "close") keyboard "back" "close"
                           (desk_world1 "back" "close")
       = (Ok (mn, mx_close), desk_world1 "back" "close")
    /\ mx_close <> mn + (mx_any - mn) * (3 / 4).
Proof.
  exists (9 / 10), (9 / 2), (9 / 5).
  rewrite (desk_range_back "any"), (desk_range_back "close").
  repeat split. lra.
Qed.

Lemma C6_close_within_any_witness :
  exists mn mx_any mx_close,
    calc_distance_range desk (monitor "back" "any") keyboard "back" "any"
                        (desk_world1 "back" "any")
    = (Ok (mn, mx_any), desk_world1 "back" "any")
    /\ calc_distance_range desk (monitor "back" "any") keyboard "back" "close"
                           (desk_world1 "back" "any")
       = (Ok (mn, mx_close), desk_world1 "back" "any")
    /\ (mn <= mx_any -> mx_close <= mx_any)
    /\ (mx_any < mn -> mx_any < mx_close).
Proof.
  exact (C6_close_within_any desk _ (monitor "back" "any") keyboard "back"
           _ _ _ _ _ (desk_world1_placed "back" "any")).
Defined.

(** C6, as the specification words it, fails: in front of the monitor the
    class [any] gives the keyboard the inverted range from 9/10 to 7/10,
    and the class [close] the upper end 17/20, which is above 7/10. *)
Lemma C6_inverted_counterexample :
  exists mn mx_any mx_close,
    calc_distance_range desk (monitor "front" "any") keyboard "front" "any"
                        (desk_world1 "front" "any")
    = (Ok (mn, mx_any), desk_world1 "front" "any")
    /\ calc_distance_range desk (monitor "front" "close") keyboard "front" "close"
                           (desk_world1 "front" "close")
       = (Ok (mn, mx_close), desk_world1 "front" "close")
    /\ ~ mx_close <= mx_any.
Proof.
  exists (9 / 10), (7 / 10), (17 / 20).
  rewrite (desk_range_front "any"), (desk_range_front "close").
  repeat split. lra.
Qed.

(** C10. [calc_distance_range] can return a [min_dist] above its
    [max_dist]: in front of a parent this happens exactly when the gap
    between the parent's box and the edge of the root surface is smaller
    than the child's smaller footprint dimension. [place_children] does
    not look at the order of the two: every pass draws its distance as
    [min_dist + (max_dist - min_dist) * u] and goes on. On the desk the
    keyboard in front of the monitor gets the range from 9/10 down to
    7/10; each of the hundred passes draws the distance 4/5 from it and
    rejects the candidate, and [place_objects] ends in the
    [PlacementException] of an exhausted loop, after 202 draws. *)
Theorem C10_inverted_range_is_sampled (E : Environment) (w w' : World E)
        (self object : ObjectNode) (x y z : R) (ob rb : BBox) (p : Relative) :
  placed E w self x y z ob rb ->
  let o := local_bbox (base object) in
  let d := Rmin (x_max o - x_min o) (y_max o - y_min o) * OBJECT_SCALE in
  let passes := relative_attempt desk keyboard (desk_relative "any") in
  (exists mn mx,
      calc_distance_range E self object "front" "any" w = (Ok (mn, mx), w)
      /\ (mx < mn <-> x_max rb - x_max ob < d))
  /\ (exists phi w'',
        draw_polar E p w'
        = (Ok (phi,
               min_dist p + (max_dist p - min_dist p)
                            * fst (random E (snd (normal_variate E (rand E w'))))),
           w''))
  /\ relative_setup desk (monitor "front" "any") keyboard "front" "any"
                    (desk_world1 "front" "any")
     = (Ok (desk_relative "any"), desk_world1 "front" "any")
  /\ min_dist (desk_relative "any") = 9 / 10
  /\ max_dist (desk_relative "any") = 7 / 10
  /\ Forall (fun k =>
               fst (draw_polar desk (desk_relative "any")
                      (world_after desk passes k (desk_world1 "front" "any")))
               = Ok (PI / 2, 4 / 5)
               /\ verdict desk passes k (desk_world1 "front" "any") = Ok false)
            (seq 0 MAX_NUM_OF_SAMPLES)
  /\ 7 / 10 < 4 / 5 <= 9 / 10
  /\ place_objects desk 1 (desk_world0 "front" "any")
     = (Raise (PlacementException "keyboard1"),
        mkWorld desk (morse desk (desk_world1 "front" "any")) 202%nat
                (desk_root1 "front" "any")).
Proof.
  intros H o d passes.
  split; [|split; [|split; [|split; [|split; [|split; [|split]]]]]].
  - run_calc H. cbn [String.eqb Ascii.eqb Bool.eqb].
    eexists _, _. split; [reflexivity|].
    subst d o. unfold OBJECT_SCALE.
    set (m := Rmin _ _). split; intros; lra.
  - rewrite draw_polar_eq.
    destruct (normal_variate E (rand E w')) as [z0 g1]. cbn [snd].
    destruct (random E g1) as [u g2]. cbn [fst].
    eexists _, _. reflexivity.
  - apply desk_setup_front.
  - reflexivity.
  - reflexivity.
  - apply Forall_forall. intros k _. split.
    + rewrite desk_world_after by (reflexivity || discriminate).
      rewrite desk_draw_polar by (cbn [rand desk_world1]; lia). reflexivity.
    + apply desk_verdict; [reflexivity | discriminate].
  - lra.
  - apply desk_place_objects.
Qed.

Lemma C10_inverted_range_is_sampled_witness :
  exists mn mx,
    calc_distance_range desk (monitor "front" "any") keyboard "front" "any"
                        (desk_world1 "front" "any")
    = (Ok (mn, mx), desk_world1 "front" "any")
    /\ (mx < mn <->
        x_max table_bbox - x_max monitor_bbox
        < Rmin (x_max (local_bbox (base keyboard)) - x_min (local_bbox (base keyboard)))
               (y_max (local_bbox (base keyboard)) - y_min (local_bbox (base keyboard)))
          * OBJECT_SCALE).
Proof.
  exact (proj1 (C10_inverted_range_is_sampled desk _ (desk_world1 "front" "any")
                  (monitor "front" "any") keyboard _ _ _ _ _
                  (desk_relative "any") (desk_world1_placed "front" "any"))).
Defined.

(** * Further properties *)

(** ** Sorting the corner points *)

Lemma insert_by_key_perm (kp : R * list R) (l : list (R * list R)) :
  Permutation (kp :: l) (insert_by_key kp l).
Proof.
  induction l as [|kq l IH]; simpl; [apply Permutation_refl|].
  destruct (Rle_dec (fst kp) (fst kq)); [apply Permutation_refl|].
  eapply perm_trans; [apply perm_swap|]. now apply perm_skip.
Qed.

Lemma sort_by_key_perm (l : list (R * list R)) :
  Permutation l (sort_by_key l).
Proof.
  induction l as [|kp l IH]; simpl; [constructor|].
  eapply perm_trans; [apply perm_skip, IH | apply insert_by_key_perm].
Qed.

Lemma insert_by_key_ascending (kp : R * list R) (l : list (R * list R)) :
  ascending (map fst l) -> ascending (map fst (insert_by_key kp l)).
Proof.
  induction l as [|kq l IH]; simpl; intros Hs.
  - repeat constructor.
  - inversion Hs as [|x l' Hall Hs']; subst.
    destruct (Rle_dec (fst kp) (fst kq)) as [Hle|Hnle]; simpl.
    + constructor; [|assumption]. constructor; [assumption|].
      eapply Forall_impl; [|exact Hall]. simpl. intros; lra.
    + constructor; [|now apply IH].
      eapply Permutation_Forall.
      * apply Permutation_map, insert_by_key_perm.
      * simpl. constructor; [lra | assumption].
Qed.

Lemma sort_by_key_ascending (l : list (R * list R)) :
  ascending (map fst (sort_by_key l)).
Proof.
  induction l as [|kp l IH]; simpl; [constructor|].
  now apply insert_by_key_ascending.
Qed.

(** Two ascending lists with the same elements are the same list. *)
Lemma ascending_unique (l1 : list R) :
  forall l2, ascending l1 -> ascending l2 -> Permutation l1 l2 -> l1 = l2.
Proof.
  induction l1 as [|x l1 IH]; intros l2 H1 H2 Hp.
  - apply Permutation_nil in Hp. now subst.
  - destruct l2 as [|y l2].
    { apply Permutation_sym, Permutation_nil in Hp. discriminate. }
    inversion H1 as [|? ? Hx H1']; inversion H2 as [|? ? Hy H2']; subst.
    assert (Hxy : x = y).
    { assert (Hin1 : In x (y :: l2))
        by (eapply Permutation_in; [exact Hp | now left]).
      assert (Hin2 : In y (x :: l1))
        by (eapply Permutation_in; [exact (Permutation_sym Hp) | now left]).
      rewrite Forall_forall in Hx, Hy.
      destruct Hin1 as [->|Hin1]; [reflexivity|].
      destruct Hin2 as [->|Hin2]; [reflexivity|].
      specialize (Hx y Hin2). specialize (Hy x Hin1). lra. }
    subst y. f_equal. apply IH; try assumption.
    now apply Permutation_cons_inv in Hp.
Qed.

Lemma sorted_coords_ascending (k : nat) (bbox : json_bbox) :
  ascending (sorted_coords k bbox).
Proof. apply sort_by_key_ascending. Qed.

Lemma sorted_coords_perm (k : nat) (bbox : json_bbox) :
  Permutation (map (coord k) bbox) (sorted_coords k bbox).
Proof.
  unfold sorted_coords.
  eapply perm_trans; [|apply Permutation_map, sort_by_key_perm].
  rewrite map_map. apply Permutation_refl.
Qed.

Lemma sorted_coords_length (k : nat) (bbox : json_bbox) :
  List.length (sorted_coords k bbox) = List.length bbox.
Proof.
  unfold sorted_coords. now rewrite length_map, sort_by_key_length, length_map.
Qed.

Lemma ascending_nth (l : list R) :
  ascending l ->
  forall i j, (i <= j)%nat -> (j < List.length l)%nat -> nth i l 0 <= nth j l 0.
Proof.
  induction 1 as [|x l Hall Hs IH]; intros i j Hij Hj; [simpl in Hj; lia|].
  destruct i as [|i], j as [|j]; simpl in *; try lia; try lra.
  - rewrite Forall_forall in Hall. apply Hall, nth_In. lia.
  - apply IH; lia.
Qed.

(** ** What [BBox.__init__] returns *)

Lemma keyed_ok (k : nat) (bbox : json_bbox) :
  Forall (fun p => (k < List.length p)%nat) bbox ->
  keyed k bbox = Ok (map (fun p => (coord k p, p)) bbox).
Proof.
  induction 1 as [|p l Hp Hl IH]; simpl; [reflexivity|].
  unfold itemgetter, getitem, coord.
  destruct (nth_error p k) as [v|] eqn:Hv.
  - simpl. rewrite IH. simpl. now rewrite (nth_error_nth _ _ 0 Hv).
  - apply nth_error_None in Hv. lia.
Qed.

Lemma keyed_wf (k : nat) (bbox : json_bbox) (kl : list (R * list R)) :
  keyed k bbox = Ok kl -> Forall (fun p => (k < List.length p)%nat) bbox.
Proof.
  revert kl. induction bbox as [|p l IH]; simpl; intros kl H; [constructor|].
  unfold itemgetter, getitem in H.
  destruct (nth_error p k) as [v|] eqn:Hv; simpl in H; [|discriminate].
  destruct (keyed k l) as [r|]; simpl in H; [|discriminate].
  constructor; [|eauto].
  apply nth_error_Some. congruence.
Qed.

Lemma item2_keyed (k : nat) (s : list (R * list R)) :
  Forall (fun kp => nth_error (snd kp) k = Some (fst kp)) s ->
  forall i, (i < List.length s)%nat ->
            item2 (map snd s) i k = Ok (nth i (map fst s) 0).
Proof.
  induction 1 as [|kp s Hkp Hs IH]; intros i Hi; [simpl in Hi; lia|].
  destruct i as [|i].
  - unfold item2, getitem. simpl. now rewrite Hkp.
  - simpl in Hi. specialize (IH i ltac:(lia)).
    unfold item2, getitem in *. simpl. exact IH.
Qed.

(** On points that all have the coordinate [k], the elements of the
    sorted list have, as their coordinate [k], the sorted coordinates. *)
Lemma item2_sorted (k : nat) (bbox : json_bbox) :
  Forall (fun p => (k < List.length p)%nat) bbox ->
  exists l, sorted k bbox = Ok l
            /\ forall i, (i < List.length bbox)%nat ->
                         item2 l i k = Ok (nth i (sorted_coords k bbox) 0).
Proof.
  intros Hwf. unfold sorted. rewrite (keyed_ok k bbox Hwf). simpl.
  eexists. split; [reflexivity|]. intros i Hi.
  unfold sorted_coords. apply item2_keyed.
  - eapply Permutation_Forall; [apply sort_by_key_perm|].
    apply Forall_map. eapply Forall_impl; [|exact Hwf].
    intros p Hp. simpl. unfold coord. apply nth_error_nth'. exact Hp.
  - now rewrite sort_by_key_length, length_map.
Qed.

Lemma three_coords_lt (k : nat) (bbox : json_bbox) :
  (k < 3)%nat -> three_coords bbox ->
  Forall (fun p => (k < List.length p)%nat) bbox.
Proof.
  intros Hk H. eapply Forall_impl; [|exact H]. simpl. intros; lia.
Qed.

(** With eight points or more, all with three coordinates,
    [BBox.__init__] takes the first and the eighth of the sorted
    coordinates of every axis. *)
Lemma BBox_init_sorted_coords (bbox : json_bbox) :
  three_coords bbox -> (8 <= List.length bbox)%nat ->
  BBox_init bbox
  = Ok (mkBBox (nth 0 (sorted_coords 0 bbox) 0) (nth 7 (sorted_coords 0 bbox) 0)
               (nth 0 (sorted_coords 1 bbox) 0) (nth 7 (sorted_coords 1 bbox) 0)
               (nth 0 (sorted_coords 2 bbox) 0) (nth 7 (sorted_coords 2 bbox) 0)).
Proof.
  intros Hwf Hlen. unfold BBox_init.
  destruct (item2_sorted 0 bbox (three_coords_lt 0 bbox ltac:(lia) Hwf))
    as (xs & -> & Hx).
  destruct (item2_sorted 1 bbox (three_coords_lt 1 bbox ltac:(lia) Hwf))
    as (ys & -> & Hy).
  destruct (item2_sorted 2 bbox (three_coords_lt 2 bbox ltac:(lia) Hwf))
    as (zs & -> & Hz).
  simpl.
  rewrite (Hx 0%nat), (Hx 7%nat) by lia. simpl.
  rewrite (Hy 0%nat), (Hy 7%nat) by lia. simpl.
  rewrite (Hz 0%nat), (Hz 7%nat) by lia. reflexivity.
Qed.

Lemma BBox_init_wf (bbox : json_bbox) (b : BBox) :
  BBox_init bbox = Ok b -> (8 <= List.length bbox)%nat /\ three_coords bbox.
Proof.
  intros Hb. split.
  - destruct (Nat.lt_ge_cases (List.length bbox) 8) as [Hlt|]; [|assumption].
    rewrite (BBox_init_short bbox Hlt) in Hb. discriminate.
  - revert Hb. unfold BBox_init.
    repeat match goal with
           | |- context [rbind (sorted ?k ?l) _] =>
               let H := fresh "Hs" in
               destruct (sorted k l) eqn:H; simpl; [|discriminate]
           | |- context [rbind (item2 ?l ?i ?k) _] =>
               destruct (item2 l i k); simpl; [|discriminate]
           end.
    intros _. unfold sorted in Hs1.
    destruct (keyed 2 bbox) as [kl|] eqn:Hk; simpl in Hs1; [|discriminate].
    apply keyed_wf in Hk. eapply Forall_impl; [|exact Hk].
    simpl. intros; lia.
Qed.

(** X1. [BBox.__init__] returns a box exactly when it is given at least
    eight points and every point has at least three coordinates; in every
    other case it raises [IndexError]. *)
Theorem X1_BBox_init_succeeds_iff (bbox : json_bbox) :
  ((exists b, BBox_init bbox = Ok b) <->
   (8 <= List.length bbox)%nat /\ three_coords bbox)
  /\ (BBox_init bbox = Raise IndexError <->
      ~ ((8 <= List.length bbox)%nat /\ three_coords bbox)).
Proof.
  pose proof (BBox_init_wf bbox) as Hwf.
  split; [split|split].
  - intros [b Hb]. eauto.
  - intros [Hlen H3]. eexists. now apply BBox_init_sorted_coords.
  - intros Hr [Hlen H3].
    rewrite (BBox_init_sorted_coords bbox H3 Hlen) in Hr. discriminate.
  - intros Hno. destruct (BBox_init bbox) as [b|e] eqn:Hb.
    + exfalso. eauto.
    + f_equal. now apply BBox_init_raises in Hb.
Qed.

Lemma sorted_coords_lower (k : nat) (bbox : json_bbox) (p : list R) :
  In p bbox -> nth 0 (sorted_coords k bbox) 0 <= coord k p.
Proof.
  intros Hin.
  assert (Hc : In (coord k p) (sorted_coords k bbox)).
  { eapply Permutation_in; [apply sorted_coords_perm|]. now apply in_map. }
  destruct (In_nth _ _ 0 Hc) as (i & Hi & <-).
  apply ascending_nth; [apply sorted_coords_ascending | lia | assumption].
Qed.

Lemma sorted_coords_upper (k : nat) (bbox : json_bbox) (p : list R) (n : nat) :
  List.length bbox = S n -> In p bbox ->
  coord k p <= nth n (sorted_coords k bbox) 0.
Proof.
  intros Hlen Hin.
  assert (Hc : In (coord k p) (sorted_coords k bbox)).
  { eapply Permutation_in; [apply sorted_coords_perm|]. now apply in_map. }
  destruct (In_nth _ _ 0 Hc) as (i & Hi & <-).
  rewrite sorted_coords_length in Hi.
  apply ascending_nth; [apply sorted_coords_ascending | lia |].
  rewrite sorted_coords_length. lia.
Qed.

Lemma sorted_coords_attained (k : nat) (bbox : json_bbox) (i : nat) :
  (i < List.length bbox)%nat ->
  exists p, In p bbox /\ coord k p = nth i (sorted_coords k bbox) 0.
Proof.
  intros Hi.
  assert (Hc : In (nth i (sorted_coords k bbox) 0) (map (coord k) bbox)).
  { eapply Permutation_in; [apply Permutation_sym, sorted_coords_perm|].
    apply nth_In. now rewrite sorted_coords_length. }
  apply in_map_iff in Hc. destruct Hc as (p & Hp & Hin). eauto.
Qed.

(** X2. In the box [BBox.__init__] returns every minimum is at most the
    maximum of its axis, every minimum and every maximum is a coordinate
    of one of the points, and no point lies below a minimum; given exactly
    eight points, no point lies above a maximum either. *)
Theorem X2_BBox_init_bounds (bbox : json_bbox) (b : BBox) :
  BBox_init bbox = Ok b ->
  (x_min b <= x_max b /\ y_min b <= y_max b /\ z_min b <= z_max b)
  /\ ((exists p, In p bbox /\ coord 0 p = x_min b)
      /\ (exists p, In p bbox /\ coord 0 p = x_max b)
      /\ (exists p, In p bbox /\ coord 1 p = y_min b)
      /\ (exists p, In p bbox /\ coord 1 p = y_max b)
      /\ (exists p, In p bbox /\ coord 2 p = z_min b)
      /\ (exists p, In p bbox /\ coord 2 p = z_max b))
  /\ Forall (fun p => x_min b <= coord 0 p /\ y_min b <= coord 1 p
                      /\ z_min b <= coord 2 p) bbox
  /\ (List.length bbox = 8%nat ->
      Forall (fun p => coord 0 p <= x_max b /\ coord 1 p <= y_max b
                       /\ coord 2 p <= z_max b) bbox).
Proof.
  intros Hb. destruct (BBox_init_wf bbox b Hb) as [Hlen H3].
  rewrite (BBox_init_sorted_coords bbox H3 Hlen) in Hb. injection Hb as <-.
  simpl. split; [|split; [|split]].
  - repeat split; (apply ascending_nth;
      [apply sorted_coords_ascending | lia | rewrite sorted_coords_length; lia]).
  - repeat split; apply sorted_coords_attained; lia.
  - apply Forall_forall. intros p Hin.
    repeat split; now apply sorted_coords_lower.
  - intros H8. apply Forall_forall. intros p Hin.
    repeat split; now apply sorted_coords_upper.
Qed.

Lemma X2_BBox_init_bounds_witness :
  (0 <= 6 /\ 0 <= 6 /\ 0 <= 1)
  /\ Forall (fun p => 0 <= coord 0 p /\ 0 <= coord 1 p /\ 0 <= coord 2 p)
            (corners 0 6 0 6 0 1).
Proof.
  pose proof (X2_BBox_init_bounds (corners 0 6 0 6 0 1) (mkBBox 0 6 0 6 0 1)
                (BBox_init_corners 0 6 0 6 0 1 ltac:(lra) ltac:(lra) ltac:(lra)))
    as (H1 & _ & H3 & _).
  exact (conj H1 H3).
Defined.

Lemma sorted_coords_permutation (k : nat) (bbox bbox' : json_bbox) :
  Permutation bbox bbox' -> sorted_coords k bbox' = sorted_coords k bbox.
Proof.
  intros Hp. apply ascending_unique; try apply sorted_coords_ascending.
  eapply perm_trans; [apply Permutation_sym, sorted_coords_perm|].
  eapply perm_trans; [|apply sorted_coords_perm].
  apply Permutation_map, Permutation_sym, Hp.
Qed.

(** X3. [BBox.__init__] does not depend on the order of the points: the
    same points in another order give the same box, or the same
    exception. *)
Theorem X3_BBox_init_any_order (bbox bbox' : json_bbox) :
  Permutation bbox bbox' -> BBox_init bbox' = BBox_init bbox.
Proof.
  intros Hp.
  assert (Hiff : (8 <= List.length bbox)%nat /\ three_coords bbox <->
                 (8 <= List.length bbox')%nat /\ three_coords bbox').
  { rewrite (Permutation_length Hp). unfold three_coords. split.
    - intros [? H]. split; [assumption|].
      eapply Permutation_Forall; [exact Hp | exact H].
    - intros [? H]. split; [assumption|].
      eapply Permutation_Forall; [exact (Permutation_sym Hp) | exact H]. }
  destruct (BBox_init bbox) as [b|e] eqn:Hb.
  - destruct (BBox_init_wf bbox b Hb) as [Hlen H3].
    destruct (proj1 Hiff (conj Hlen H3)) as [Hlen' H3'].
    rewrite (BBox_init_sorted_coords bbox H3 Hlen) in Hb.
    rewrite (BBox_init_sorted_coords bbox' H3' Hlen'), <- Hb.
    now rewrite !(sorted_coords_permutation _ bbox bbox' Hp).
  - pose proof (BBox_init_raises bbox e Hb) as ->.
    destruct (BBox_init bbox') as [b'|e'] eqn:Hb'.
    + destruct (proj2 Hiff (BBox_init_wf bbox' b' Hb')) as [Hlen H3].
      rewrite (BBox_init_sorted_coords bbox H3 Hlen) in Hb. discriminate.
    + f_equal. now apply BBox_init_raises in Hb'.
Qed.

Lemma X3_BBox_init_any_order_witness :
  BBox_init ([0; 0; 1] :: [0; 0; 0] :: tl (tl (corners 0 6 0 6 0 1)))
  = BBox_init (corners 0 6 0 6 0 1).
Proof.
  apply (X3_BBox_init_any_order (corners 0 6 0 6 0 1)).
  unfold corners. simpl. apply perm_swap.
Defined.

Lemma ascending_snoc (l : list R) (x : R) :
  ascending l -> Forall (fun y => y <= x) l -> ascending (l ++ [x])%list.
Proof.
  induction 1 as [|y l Hall Hs IH]; simpl; intros Hle.
  - repeat constructor.
  - inversion Hle as [|? ? Hyx Hle']; subst. constructor; [|now apply IH].
    apply Forall_app. split; [assumption|]. constructor; [exact Hyx | constructor].
Qed.

Lemma sorted_coords_cons_max (k : nat) (p : list R) (l : json_bbox) :
  Forall (fun q => coord k q <= coord k p) l ->
  sorted_coords k (p :: l) = (sorted_coords k l ++ [coord k p])%list.
Proof.
  intros Hle. apply ascending_unique.
  - apply sorted_coords_ascending.
  - apply ascending_snoc; [apply sorted_coords_ascending|].
    eapply Permutation_Forall; [apply sorted_coords_perm|].
    now apply Forall_map.
  - eapply perm_trans; [apply Permutation_sym, sorted_coords_perm|].
    simpl. eapply perm_trans; [|apply Permutation_cons_append].
    apply perm_skip, sorted_coords_perm.
Qed.

(** X4. Points beyond the eighth are not all inside the box: a further
    point that is at least as large as eight given ones on every axis is
    ignored, the box is the box of the others. *)
Theorem X4_BBox_init_ignores_ninth (p : list R) (l : json_bbox) :
  (8 <= List.length l)%nat ->
  three_coords (p :: l) ->
  Forall (fun q => coord 0 q <= coord 0 p /\ coord 1 q <= coord 1 p
                   /\ coord 2 q <= coord 2 p) l ->
  BBox_init (p :: l) = BBox_init l.
Proof.
  intros Hlen H3 Hle.
  assert (H3l : three_coords l) by (now inversion H3).
  rewrite (BBox_init_sorted_coords (p :: l) H3) by (simpl; lia).
  rewrite (BBox_init_sorted_coords l H3l Hlen).
  rewrite !sorted_coords_cons_max
    by (eapply Forall_impl; [|exact Hle]; simpl; tauto).
  rewrite !app_nth1 by (rewrite sorted_coords_length; lia).
  reflexivity.
Qed.

Lemma X4_BBox_init_ignores_ninth_witness :
  BBox_init ([7; 7; 7] :: corners 0 6 0 6 0 1) = BBox_init (corners 0 6 0 6 0 1).
Proof.
  apply X4_BBox_init_ignores_ninth.
  - simpl. lia.
  - unfold three_coords, corners. repeat constructor.
  - unfold corners, coord. repeat constructor; simpl; lra.
Defined.

(** ** Norms and quaternions *)

Lemma dot_self_nonneg (v : list R) : 0 <= dot v v.
Proof.
  unfold dot. induction v as [|x v IH]; simpl; [lra|].
  pose proof (Rle_0_sqr x) as Hx. unfold Rsqr in Hx. lra.
Qed.

Lemma dot_self_zero (v : list R) : dot v v = 0 <-> Forall (fun x => x = 0) v.
Proof.
  induction v as [|x v IH].
  - split; [constructor | reflexivity].
  - change (dot (x :: v) (x :: v)) with (x * x + dot v v).
    pose proof (dot_self_nonneg v) as Hv.
    pose proof (Rle_0_sqr x) as Hx. unfold Rsqr in Hx.
    split.
    + intros H. assert (Hxx : x * x = 0) by lra.
      constructor; [now apply Rsqr_0_uniq | apply IH; lra].
    + intros H. inversion H as [|? ? H0 Hrest]; subst.
      apply IH in Hrest. lra.
Qed.

Lemma dot_scale (k : R) (v : list R) :
  dot (map (fun c => c * k) v) (map (fun c => c * k) v) = k * k * dot v v.
Proof.
  unfold dot. induction v as [|x v IH]; simpl; [lra|].
  simpl in IH. rewrite IH. ring.
Qed.

(** X5. [vector_norm] of a list of numbers is never negative, it is 0
    exactly when every number is 0 (so on the empty list), it is the
    absolute value on a list of one number, and scaling all the numbers by
    [k] scales it by the absolute value of [k]. *)
Theorem X5_vector_norm (v : list R) (x k : R) :
  0 <= vector_norm v
  /\ (vector_norm v = 0 <-> Forall (fun c => c = 0) v)
  /\ vector_norm [] = 0
  /\ vector_norm [x] = Rabs x
  /\ vector_norm (map (fun c => c * k) v) = Rabs k * vector_norm v.
Proof.
  unfold vector_norm. split; [apply sqrt_pos|]. split; [|split; [|split]].
  - rewrite <- dot_self_zero. split.
    + intros H. apply sqrt_eq_0; [apply dot_self_nonneg | exact H].
    + intros ->. apply sqrt_0.
  - apply sqrt_0.
  - unfold dot. simpl. rewrite Rplus_0_r. apply sqrt_Rsqr_abs.
  - rewrite dot_scale, sqrt_mult_alt.
    + f_equal. apply sqrt_Rsqr_abs.
    + pose proof (Rle_0_sqr k) as Hk. exact Hk.
Qed.

Lemma cos2_sin2_half (a : R) : cos (a / 2) * cos (a / 2) + sin (a / 2) * sin (a / 2) = 1.
Proof.
  pose proof (sin2_cos2 (a / 2)) as H. unfold Rsqr in H. lra.
Qed.

Lemma _EPS_pos : 0 < _EPS.
Proof.
  unfold _EPS. apply Rmult_lt_0_compat; [|lra].
  apply Rinv_0_lt_compat, pow_lt. lra.
Qed.

Lemma _EPS_lt_1 : _EPS < 1.
Proof.
  unfold _EPS.
  assert (H : 8 <= 2 ^ 52).
  { change 52%nat with (3 + 49)%nat. rewrite pow_add.
    assert (1 <= 2 ^ 49) by (apply pow_R1_Rle; lra).
    assert (2 ^ 3 = 8) by (simpl; lra). nra. }
  assert (Hinv : / 2 ^ 52 <= / 8).
  { apply Rinv_le_contravar; lra. }
  lra.
Qed.

Lemma vector_norm_vertical : vector_norm [0; 0; 0; 1] = 1.
Proof.
  unfold vector_norm, dot. simpl.
  replace (0 * 0 + (0 * 0 + (0 * 0 + (1 * 1 + 0)))) with 1 by lra.
  apply sqrt_1.
Qed.

Lemma vector_norm_null : vector_norm [0; 0; 0; 0] = 0.
Proof.
  unfold vector_norm, dot. simpl.
  replace (0 * 0 + (0 * 0 + (0 * 0 + (0 * 0 + 0)))) with 0 by lra.
  apply sqrt_0.
Qed.

(** The quaternion for an axis longer than [_EPS]. *)
Lemma quaternion_about_axis_long (angle a0 a1 a2 : R) :
  _EPS < vector_norm [0; a0; a1; a2] ->
  quaternion_about_axis angle (a0, a1, a2)
  = let n := vector_norm [0; a0; a1; a2] in
    [cos (angle / 2); a0 * (sin (angle / 2) / n); a1 * (sin (angle / 2) / n);
     a2 * (sin (angle / 2) / n)].
Proof.
  intros H. unfold quaternion_about_axis.
  rewrite (proj2 (Rgtb_true _ _)) by lra. reflexivity.
Qed.

(** X6. For an axis whose length exceeds [_EPS],
    [quaternion_about_axis] returns a quaternion of norm 1; about the
    vertical axis [(0, 0, 1)], the one the placement uses, it is
    [[cos (angle/2), 0, 0, sin (angle/2)]]. *)
Theorem X6_quaternion_about_axis_unit (angle a0 a1 a2 : R) :
  _EPS < vector_norm [0; a0; a1; a2] ->
  vector_norm (quaternion_about_axis angle (a0, a1, a2)) = 1
  /\ quaternion_about_axis angle (0, 0, 1)
     = [cos (angle / 2); 0; 0; sin (angle / 2)].
Proof.
  intros H. split.
  - rewrite (quaternion_about_axis_long angle a0 a1 a2 H). cbv zeta.
    pose proof _EPS_pos as He.
    set (n := vector_norm [0; a0; a1; a2]) in *.
    assert (Hn2 : n * n = a0 * a0 + a1 * a1 + a2 * a2).
    { unfold n, vector_norm. rewrite sqrt_sqrt by apply dot_self_nonneg.
      unfold dot. simpl. ring. }
    unfold vector_norm, dot. simpl.
    rewrite <- sqrt_1. f_equal.
    pose proof (cos2_sin2_half angle) as Hcs.
    set (c := cos (angle / 2)) in *. set (s := sin (angle / 2)) in *.
    replace (c * c + (a0 * (s / n) * (a0 * (s / n))
             + (a1 * (s / n) * (a1 * (s / n))
                + (a2 * (s / n) * (a2 * (s / n)) + 0))))
      with (c * c + s * s * ((a0 * a0 + a1 * a1 + a2 * a2) / (n * n)))
      by (field; lra).
    rewrite <- Hn2. replace (n * n / (n * n)) with 1 by (field; lra). lra.
  - pose proof vector_norm_vertical as H1.
    rewrite quaternion_about_axis_long by (rewrite H1; apply _EPS_lt_1).
    cbv zeta. rewrite H1. repeat (f_equal; try lra).
Qed.

Lemma X6_quaternion_about_axis_unit_witness :
  vector_norm (quaternion_about_axis (PI / 3) (0, 0, 1)) = 1
  /\ quaternion_about_axis (PI / 3) (0, 0, 1)
     = [cos (PI / 3 / 2); 0; 0; sin (PI / 3 / 2)].
Proof.
  apply X6_quaternion_about_axis_unit.
  rewrite vector_norm_vertical. apply _EPS_lt_1.
Defined.

(** X7. For an axis no longer than [_EPS], the zero axis among them,
    [quaternion_about_axis] leaves the axis as it is: the result is
    [[cos (angle/2), a0, a1, a2]], and for the zero axis its norm is the
    absolute value of [cos (angle/2)], not 1. *)
Theorem X7_quaternion_about_axis_short (angle a0 a1 a2 : R) :
  vector_norm [0; a0; a1; a2] <= _EPS ->
  quaternion_about_axis angle (a0, a1, a2) = [cos (angle / 2); a0; a1; a2]
  /\ vector_norm (quaternion_about_axis angle (0, 0, 0)) = Rabs (cos (angle / 2)).
Proof.
  intros H. split.
  - unfold quaternion_about_axis.
    rewrite (proj2 (Rgtb_false _ _)) by lra. reflexivity.
  - pose proof vector_norm_null as H0.
    unfold quaternion_about_axis.
    rewrite (proj2 (Rgtb_false _ _)) by (rewrite H0; apply Rlt_le, _EPS_pos).
    unfold vector_norm, dot. simpl.
    replace (cos (angle / 2) * cos (angle / 2) + (0 * 0 + (0 * 0 + (0 * 0 + 0))))
      with (Rsqr (cos (angle / 2))) by (unfold Rsqr; ring).
    apply sqrt_Rsqr_abs.
Qed.

Lemma X7_quaternion_about_axis_short_witness :
  quaternion_about_axis PI (0, 0, 0) = [cos (PI / 2); 0; 0; 0]
  /\ vector_norm (quaternion_about_axis PI (0, 0, 0)) = Rabs (cos (PI / 2)).
Proof.
  apply X7_quaternion_about_axis_short.
  rewrite vector_norm_null. apply Rlt_le, _EPS_pos.
Defined.

(** ** The bookkeeping of a placement pass *)

Lemma dict_find_set_same {V : Type} (d : dict V) (k : string) (v : V) :
  dict_find (dict_set d k v) k = Some v.
Proof.
  induction d as [|[k' v'] d IH]; simpl.
  - now rewrite String.eqb_refl.
  - destruct (String.eqb_spec k k') as [->|Hne]; simpl.
    + now rewrite String.eqb_refl.
    + destruct (String.eqb_spec k k'); [contradiction | exact IH].
Qed.

Lemma dict_find_set_other {V : Type} (d : dict V) (k k' : string) (v : V) :
  k' <> k -> dict_find (dict_set d k v) k' = dict_find d k'.
Proof.
  intros Hne. induction d as [|[k0 v0] d IH]; simpl.
  - destruct (String.eqb_spec k' k); [contradiction | reflexivity].
  - destruct (String.eqb_spec k k0) as [->|Hk]; simpl.
    + destruct (String.eqb_spec k' k0); [contradiction | reflexivity].
    + destruct (String.eqb_spec k' k0); [reflexivity | exact IH].
Qed.

Lemma dict_find_set_some {V : Type} (d : dict V) (k k' : string) (v : V) :
  dict_find d k' <> None -> dict_find (dict_set d k v) k' <> None.
Proof.
  intros H. destruct (String.eqb_spec k' k) as [->|Hne].
  - rewrite dict_find_set_same. discriminate.
  - now rewrite dict_find_set_other.
Qed.

Lemma overlap2d_sym (a b : BBox) : overlap2d a b -> overlap2d b a.
Proof. unfold overlap2d. intros (H1 & H2 & H3 & H4). repeat split; lra. Qed.

Lemma in_collision_false (r : RootNode) (bbox : BBox) :
  in_collision r bbox = Ok false ->
  forall k b, dict_find (global_bboxes r) k = Some b -> ~ overlap2d bbox b.
Proof.
  intros H k b Hk Ho.
  destruct (in_collision_spec r bbox) as (x & Hx & Hiff).
  rewrite H in Hx. injection Hx as <-.
  assert (false = true) by (apply Hiff; eauto). discriminate.
Qed.

Lemma places_refl (r : RootNode) : places r r [].
Proof.
  unfold places. rewrite app_nil_r.
  split; [|split; [|split; [|split; [|split; [|split]]]]]; auto.
  intros k [].
Qed.

Lemma places_trans (r r' r'' : RootNode) (n1 n2 : list string) :
  places r r' n1 -> places r' r'' n2 -> places r r'' (n1 ++ n2).
Proof.
  intros (B1 & C1 & S1 & O1 & R1 & N1 & D1) (B2 & C2 & S2 & O2 & R2 & N2 & D2).
  unfold places.
  split; [|split; [|split; [|split; [|split; [|split]]]]];
    try congruence; auto.
  - rewrite O2, O1. now rewrite app_assoc.
  - intros k Hin. apply in_app_or in Hin. destruct Hin; auto.
Qed.

(** The five assignments of an accepted candidate place one object, and
    keep the recorded boxes disjoint. *)
Lemma record_placement_places (r : RootNode) (cname : string) (pos : R * R * R)
      (orientation : list R) (gb : BBox) (json : json_bbox) :
  in_collision r gb = Ok false ->
  places r (record_placement r cname pos orientation gb json) [cname].
Proof.
  intros Hfree. unfold places, record_placement, recorded; simpl.
  split; [|split; [|split; [|split; [|split; [|split]]]]]; auto.
  - intros k [Hp Hb]. split; now apply dict_find_set_some.
  - intros k [<-|[]]. rewrite !dict_find_set_same. split; discriminate.
  - intros Hd k1 k2 b1 b2 Hne H1 H2. unfold disjoint_boxes in Hd.
    simpl in H1, H2.
    destruct (String.eqb_spec k1 cname) as [->|Hk1].
    + rewrite dict_find_set_same in H1. injection H1 as <-.
      rewrite dict_find_set_other in H2 by congruence.
      exact (in_collision_false r gb Hfree k2 b2 H2).
    + rewrite dict_find_set_other in H1 by assumption.
      destruct (String.eqb_spec k2 cname) as [->|Hk2].
      * rewrite dict_find_set_same in H2. injection H2 as <-.
        intros Ho. apply overlap2d_sym in Ho.
        exact (in_collision_false r gb Hfree k1 b1 H1 Ho).
      * rewrite dict_find_set_other in H2 by assumption.
        exact (Hd k1 k2 b1 b2 Hne H1 H2).
Qed.

Section Bookkeeping.

Variable E : Environment.

(** A pass either accepts and places the child, or leaves the root as it
    was. *)
Let pass_ok (body : M E bool) (cname : string) : Prop :=
  forall w,
    (fst (body w) = Ok true /\ places (root E w) (root E (snd (body w))) [cname])
    \/ (fst (body w) <> Ok true /\ root E (snd (body w)) = root E w).

Lemma try_candidate_pass (c : ObjectNode) (x y z : R) (w : World E) :
  (fst (try_candidate E c x y z w) = Ok true
   /\ places (root E w) (root E (snd (try_candidate E c x y z w)))
             [name (base c)])
  \/ (fst (try_candidate E c x y z w) <> Ok true
      /\ root E (snd (try_candidate E c x y z w)) = root E w).
Proof.
  rewrite try_candidate_eq.
  destruct (within_root_bbox (root E w) c x y);
    [|right; split; [discriminate | reflexivity]].
  cbv zeta. destruct (BBox_init _) as [gb|e];
    [|right; split; [discriminate | reflexivity]].
  destruct (in_collision (root E w) gb) as [[|]|e] eqn:Hc;
    try (right; split; [discriminate | reflexivity]).
  left. split; [reflexivity|]. cbn [snd root].
  now apply record_placement_places.
Qed.

Lemma root_attempt_pass (c : ObjectNode) (x_mu y_mu : R) :
  pass_ok (root_attempt E c x_mu y_mu) (name (base c)).
Proof.
  intros w. unfold root_attempt, gauss, draw, bind, get_root, ret.
  cbn [root rand morse].
  destruct (normal_variate E (rand E w)) as [z1 g1]. cbn [root rand morse].
  destruct (normal_variate E g1) as [z2 g2]. cbn [root rand morse].
  match goal with
  | |- context [try_candidate E c ?x ?y ?z ?w'] =>
      exact (try_candidate_pass c x y z w')
  end.
Qed.

Lemma relative_attempt_eq (c : ObjectNode) (p : Relative) (w : World E) :
  relative_attempt E c p w
  = match draw_polar E p w with
    | (Ok (phi, dist), w') =>
        try_candidate E c (self_x p - root_x p + sin phi * dist)
                      (self_y p - root_y p + cos phi * dist)
                      (get_z_max (local_bbox (root_base (root E w')))
                       + (get_z_max (local_bbox (base c))
                          - get_z_min (local_bbox (base c))) / 2 + Z_DIST)
                      w'
    | (Raise e, w') => (Raise e, w')
    end.
Proof.
  unfold relative_attempt, bind, get_root.
  destruct (draw_polar E p w) as [[[phi dist]|e] w']; reflexivity.
Qed.

Lemma relative_attempt_pass (c : ObjectNode) (p : Relative) :
  pass_ok (relative_attempt E c p) (name (base c)).
Proof.
  intros w. rewrite relative_attempt_eq, draw_polar_eq.
  destruct (normal_variate E (rand E w)) as [z1 g1].
  destruct (random E g1) as [u g2]. cbv zeta. cbv beta iota.
  match goal with
  | |- context [try_candidate E c ?x ?y ?z ?w'] =>
      exact (try_candidate_pass c x y z w')
  end.
Qed.

(** The loop with its [raise]: either it returns and has placed the child,
    or it raises, an [IndexError] of a pass or the [PlacementException] of
    the child, and has left the root as it was. *)
Lemma sampling_places (body : M E bool) (cname : string) :
  pass_ok body cname ->
  (forall w e, fst (body w) = Raise e -> e = IndexError) ->
  forall w,
    let run := bind E (while_loop E body MAX_NUM_OF_SAMPLES 0)
                    (fun i => if (MAX_NUM_OF_SAMPLES <=? i)%nat
                              then raise E (PlacementException cname)
                              else ret E tt) w in
    (fst run = Ok tt /\ places (root E w) (root E (snd run)) [cname])
    \/ ((fst run = Raise IndexError
         \/ fst run = Raise (PlacementException cname))
        /\ root E (snd run) = root E w).
Proof.
  intros Hpass Hexn.
  assert (Hafter : forall k w,
             (forall j, (j < k)%nat -> verdict E body j w = Ok false) ->
             root E (world_after E body k w) = root E w).
  { induction k as [|k IH]; intros w Hrej; [reflexivity|].
    cbn [world_after]. rewrite IH.
    - destruct (Hpass w) as [[Hacc _]|[_ Hsame]]; [|exact Hsame].
      specialize (Hrej 0%nat ltac:(lia)). rewrite verdict_0 in Hrej. congruence.
    - intros j Hj. specialize (Hrej (S j) ltac:(lia)).
      now rewrite verdict_S in Hrej. }
  intros w run. subst run. unfold bind.
  destruct (first_stop E body MAX_NUM_OF_SAMPLES w)
    as [Hrej|(k & Hk & Hrej & Hstop)].
  - rewrite (while_loop_rejects E body _ 0 w) by (try assumption; lia).
    cbv beta iota.
    change (MAX_NUM_OF_SAMPLES <=? 0 + MAX_NUM_OF_SAMPLES)%nat with true.
    cbv beta iota. unfold raise. cbn [fst snd].
    right. split; [right; reflexivity|]. now apply Hafter.
  - rewrite (while_loop_stops E body _ 0 k w) by (try assumption; lia).
    rewrite world_after_S. pose proof (Hafter k w Hrej) as Hroot.
    unfold verdict in *.
    destruct (Hpass (world_after E body k w)) as [[Hacc Hpl]|[Hnacc Hsame]].
    + rewrite Hacc. cbv beta iota.
      destruct (Nat.leb_spec MAX_NUM_OF_SAMPLES (0 + k)) as [Hge|_]; [lia|].
      unfold ret. cbn [fst snd].
      left. split; [reflexivity|]. now rewrite <- Hroot.
    + destruct (fst (body (world_after E body k w))) as [[|]|e] eqn:Hv;
        try congruence.
      right. rewrite (Hexn _ _ Hv). cbv beta iota. cbn [fst snd].
      split; [left; reflexivity|]. congruence.
Qed.

End Bookkeeping.

(** ** Placement over a tree *)

(** Induction over a tree of object nodes. *)
Lemma ObjectNode_tree_ind (P : ObjectNode -> Prop) :
  (forall b yaw ch,
      Forall (fun entry : ObjectNode * string * string => P (fst (fst entry))) ch ->
      P (mkObjectNode b yaw ch)) ->
  forall n, P n.
Proof.
  intros H.
  fix IH 1. intros [b yaw ch]. apply H.
  induction ch as [|entry ch IHch]; constructor.
  - apply IH.
  - exact IHch.
Qed.

Lemma prefix_nil (l : list string) : prefix [] l.
Proof. exists l. reflexivity. Qed.

Lemma prefix_refl (l : list string) : prefix l l.
Proof. exists []. now rewrite app_nil_r. Qed.

Lemma prefix_app_r (l1 l2 l3 : list string) :
  prefix l1 l2 -> prefix l1 (l2 ++ l3).
Proof. intros [rest ->]. exists (rest ++ l3)%list. now rewrite app_assoc. Qed.

Lemma prefix_app_l (l l1 l2 : list string) :
  prefix l1 l2 -> prefix (l ++ l1) (l ++ l2).
Proof. intros [rest ->]. exists rest. now rewrite app_assoc. Qed.

Section Tree.

Variable E : Environment.

Lemma tree_outcome_ret (w : World E) : tree_outcome E w (ret E tt w) [].
Proof.
  exists []. split; [apply places_refl|]. split; [apply prefix_nil|].
  split; [reflexivity|]. intros e H. discriminate.
Qed.

(** One part after another. *)
Lemma tree_outcome_seq (m1 m2 : M E unit) (e1 e2 : list string) (w : World E) :
  tree_outcome E w (m1 w) e1 ->
  (forall w', m1 w = (Ok tt, w') -> places (root E w) (root E w') e1 ->
              tree_outcome E w' (m2 w') e2) ->
  tree_outcome E w (bind E m1 (fun _ => m2) w) (e1 ++ e2).
Proof.
  intros (n1 & Hp1 & Hpre1 & Hok1 & Hex1) H2. unfold bind.
  destruct (m1 w) as [[[]|e] w'] eqn:Hm1; cbn [fst snd] in *.
  - rewrite (Hok1 eq_refl) in *.
    destruct (H2 w' eq_refl Hp1) as (n2 & Hp2 & Hpre2 & Hok2 & Hex2).
    exists (e1 ++ n2)%list. split; [eapply places_trans; eassumption|].
    split; [now apply prefix_app_l|]. split.
    + intros Hr. now rewrite (Hok2 Hr).
    + intros e Hr. destruct (Hex2 e Hr) as [->|(c & -> & Hc)]; [now left|].
      right. exists c. split; [reflexivity|].
      rewrite <- app_assoc. now apply prefix_app_l.
  - exists n1. split; [assumption|]. split; [now apply prefix_app_r|].
    split; [discriminate|].
    intros e' Hr. injection Hr as <-.
    destruct (Hex1 e eq_refl) as [->|(c & -> & Hc)]; [now left|].
    right. exists c. split; [reflexivity | now apply prefix_app_r].
Qed.

(** A loop over a list, under a condition on the root that placing
    objects does not undo. *)
Lemma tree_outcome_for_each {A : Type} (pre : RootNode -> Prop)
      (body : A -> M E unit) (expected : A -> list string) (l : list A) :
  (forall r r' names, pre r -> places r r' names -> pre r') ->
  Forall (fun x => forall w, pre (root E w) ->
                             tree_outcome E w (body x w) (expected x)) l ->
  forall w, pre (root E w) ->
            tree_outcome E w (for_each E body l w) (flat_map expected l).
Proof.
  intros Hstable Hall. induction Hall as [|x l Hx Hl IH]; intros w Hpre.
  - apply tree_outcome_ret.
  - cbn [for_each flat_map]. apply tree_outcome_seq.
    + now apply Hx.
    + intros w' _ Hpl. apply IH. exact (Hstable _ _ _ Hpre Hpl).
Qed.

Lemma sample_root_child_outcome (c : ObjectNode) (anchor : string) (w : World E) :
  tree_outcome E w (sample_root_child E c anchor w) [name (base c)].
Proof.
  destruct (get_anchor_total (root_base (root E w)) anchor) as (x_mu & y_mu & Ha).
  rewrite (sample_root_child_eq E c anchor w x_mu y_mu Ha).
  destruct (sampling_places E _ (name (base c))
              (root_attempt_pass E c x_mu y_mu)
              (root_attempt_raises E c x_mu y_mu) w)
    as [[Hok Hpl]|[Hr Hsame]].
  - exists [name (base c)]. split; [assumption|]. split; [apply prefix_refl|].
    split; [reflexivity|]. intros e He. congruence.
  - exists []. split; [rewrite Hsame; apply places_refl|].
    split; [apply prefix_nil|]. split.
    + intros Hok. destruct Hr; congruence.
    + intros e He. destruct Hr as [Hr|Hr]; rewrite Hr in He; injection He as <-.
      * now left.
      * right. exists (name (base c)). split; [reflexivity | apply prefix_refl].
Qed.

(** With the parent recorded, [calc_distance_range] returns a range or
    raises [IndexError]; it changes nothing. *)
Lemma calc_distance_range_recorded (self object : ObjectNode)
      (direction distance : string) (w : World E) :
  recorded (root E w) (name (base self)) ->
  (exists mn mx,
      calc_distance_range E self object direction distance w = (Ok (mn, mx), w))
  \/ calc_distance_range E self object direction distance w
     = (Raise IndexError, w).
Proof.
  intros [Hpos Hbox].
  destruct (dict_find (positions (root E w)) (name (base self)))
    as [[[x y] z]|] eqn:Hp; [|congruence].
  destruct (dict_find (global_bboxes (root E w)) (name (base self)))
    as [ob|] eqn:Hb; [|congruence].
  destruct (BBox_init (get_object_global_bbox E (name (root_base (root E w)))
                                              (morse E w)))
    as [rb|e] eqn:Hrb.
  - left.
    assert (H : placed E w self x y z ob rb).
    { unfold placed, dict_get. now rewrite Hp, Hb. }
    run_calc H.
    match goal with
    | |- context [let '(a, b) := ?q in _] => destruct q as [mn mx]
    end.
    eexists _, _. reflexivity.
  - right. unfold calc_distance_range, bind, get_root, lift, rpc, ret, dict_get.
    cbv beta iota. rewrite Hp. cbv beta iota. rewrite Hb. cbv beta iota.
    rewrite Hrb. cbv beta iota. now rewrite (BBox_init_raises _ _ Hrb).
Qed.

Lemma relative_setup_eq (self c : ObjectNode) (direction distance : string)
      (w : World E) :
  relative_setup E self c direction distance w
  = match dict_get (positions (root E w)) (name (base self)) with
    | Raise e => (Raise e, w)
    | Ok (sx, sy, sz) =>
        match get_direction direction with
        | Raise e => (Raise e, w)
        | Ok phi =>
            let '(rx, ry, rz) :=
              fst (get_object_pose E (name (root_base (root E w))) (morse E w)) in
            match calc_distance_range E self c direction distance w with
            | (Ok (mn, mx), w') => (Ok (mkRelative sx sy rx ry phi mn mx), w')
            | (Raise e, w') => (Raise e, w')
            end
        end
    end.
Proof.
  unfold relative_setup, bind, get_root, lift, rpc, ret.
  destruct (dict_get _ _) as [[[sx sy] sz]|e]; [|reflexivity].
  destruct (get_direction direction) as [phi|e]; [|reflexivity].
  destruct (fst (get_object_pose E _ _)) as [[rx ry] rz].
  destruct (calc_distance_range E self c direction distance w)
    as [[[mn mx]|e] w']; reflexivity.
Qed.

(** With the parent recorded, the lookups before the loop of
    [place_children] return or raise [IndexError]; they change nothing. *)
Lemma relative_setup_recorded (self c : ObjectNode) (direction distance : string)
      (w : World E) :
  recorded (root E w) (name (base self)) ->
  (exists p, relative_setup E self c direction distance w = (Ok p, w))
  \/ relative_setup E self c direction distance w = (Raise IndexError, w).
Proof.
  intros Hrec. pose proof Hrec as [Hpos _].
  rewrite relative_setup_eq. unfold dict_get.
  destruct (dict_find (positions (root E w)) (name (base self)))
    as [[[x y] z]|]; [|congruence].
  assert (Hd : exists phi, get_direction direction = Ok phi).
  { unfold get_direction.
    repeat match goal with
           | |- context [if ?b then _ else _] => destruct b
           end; eauto. }
  destruct Hd as [phi ->].
  destruct (fst (get_object_pose E _ _)) as [[rx ry] rz].
  destruct (calc_distance_range_recorded self c direction distance w Hrec)
    as [(mn & mx & ->)| ->].
  - left. eexists. reflexivity.
  - right. reflexivity.
Qed.

Lemma sample_relative_child_outcome (self c : ObjectNode)
      (direction distance : string) (w : World E) :
  recorded (root E w) (name (base self)) ->
  tree_outcome E w (sample_relative_child E self c direction distance w)
               [name (base c)].
Proof.
  intros Hrec.
  destruct (relative_setup_recorded self c direction distance w Hrec)
    as [[p Hs]|Hs].
  - rewrite (sample_relative_child_eq E self c direction distance w w p Hs).
    destruct (sampling_places E _ (name (base c))
                (relative_attempt_pass E c p)
                (relative_attempt_raises E c p) w)
      as [[Hok Hpl]|[Hr Hsame]].
    + exists [name (base c)]. split; [assumption|]. split; [apply prefix_refl|].
      split; [reflexivity|]. intros e He. congruence.
    + exists []. split; [rewrite Hsame; apply places_refl|].
      split; [apply prefix_nil|]. split.
      * intros Hok. destruct Hr; congruence.
      * intros e He. destruct Hr as [Hr|Hr]; rewrite Hr in He; injection He as <-.
        -- now left.
        -- right. exists (name (base c)).
           split; [reflexivity | apply prefix_refl].
  - unfold sample_relative_child, bind. rewrite Hs. cbn [fst snd].
    exists []. split; [apply places_refl|]. split; [apply prefix_nil|].
    split; [discriminate|]. intros e He. injection He as <-. now left.
Qed.

Lemma place_children_eq (self : ObjectNode) :
  place_children E self
  = for_each E (fun entry : ObjectNode * string * string =>
                  let '(c, direction, distance) := entry in
                  bind E (sample_relative_child E self c direction distance)
                       (fun _ => place_children E c))
             (children self).
Proof. destruct self. reflexivity. Qed.

Lemma preorder_eq (n : ObjectNode) :
  preorder n = name (base n) :: preorder_children n.
Proof. destruct n. reflexivity. Qed.

Lemma places_recorded (r r' : RootNode) (names : list string) (k : string) :
  places r r' names -> recorded r k -> recorded r' k.
Proof. intros (_ & _ & _ & _ & H & _) Hk. now apply H. Qed.

(** [place_children] on a recorded parent places the nodes below it,
    depth first. *)
Lemma place_children_outcome (self : ObjectNode) :
  forall w, recorded (root E w) (name (base self)) ->
            tree_outcome E w (place_children E self w) (preorder_children self).
Proof.
  induction self as [b yaw ch IH] using ObjectNode_tree_ind.
  intros w Hrec. rewrite place_children_eq. unfold preorder_children.
  cbn [children base] in *.
  apply (tree_outcome_for_each (fun r => recorded r (name b))).
  - intros r r' names Hr Hpl. exact (places_recorded r r' names _ Hpl Hr).
  - rewrite Forall_forall in IH. apply Forall_forall.
    intros [[c direction] distance] Hin w' Hrec'. cbn [fst].
    rewrite preorder_eq.
    change (name (base c) :: preorder_children c)
      with ([name (base c)] ++ preorder_children c)%list.
    apply tree_outcome_seq.
    + now apply sample_relative_child_outcome.
    + intros w'' _ (_ & _ & _ & _ & _ & Hnew & _).
      apply (IH _ Hin). apply Hnew. now left.
  - exact Hrec.
Qed.

End Tree.

Section WholePass.

Variable E : Environment.

(** The loop of [place_objects] over the children of the root. *)
Let root_loop (r : RootNode) : M E unit :=
  for_each E (fun entry : ObjectNode * string =>
                let '(c, anchor) := entry in
                bind E (sample_root_child E c anchor)
                     (fun _ => place_children E c))
           (root_children r).

Lemma root_loop_outcome (w : World E) :
  tree_outcome E w (root_loop (root E w) w) (preorder_root (root E w)).
Proof.
  unfold root_loop, preorder_root.
  apply (tree_outcome_for_each E (fun _ => True)); [trivial| |trivial].
  apply Forall_forall. intros [c anchor] _ w' _. cbn [fst].
  rewrite preorder_eq.
  change (name (base c) :: preorder_children c)
    with ([name (base c)] ++ preorder_children c)%list.
  apply tree_outcome_seq.
  - apply sample_root_child_outcome.
  - intros w'' _ (_ & _ & _ & _ & _ & Hnew & _).
    apply place_children_outcome. apply Hnew. now left.
Qed.

(** [place_objects] is its loop, followed, if the loop returns, by the
    record of the scene. *)
Lemma place_objects_eq (no : nat) (w : World E) :
  place_objects E no w
  = match root_loop (root E w) w with
    | (Ok _, w') =>
        (Ok tt,
         mkWorld E (morse E w') (rand E w')
           (mkRootNode (root_base (root E w')) (root_children (root E w'))
              (scenes (root E w')
               ++ [mkScene no (objects (root E w')) (positions (root E w'))
                           (orientations (root E w'))
                           (global_bboxes_json (root E w'))])
              (objects (root E w')) (positions (root E w'))
              (orientations (root E w')) (global_bboxes (root E w'))
              (global_bboxes_json (root E w'))))
    | (Raise e, w') => (Raise e, w')
    end.
Proof.
  unfold place_objects, root_loop, bind, get_root, put_root.
  destruct (for_each E _ _ w) as [[[]|e] w']; reflexivity.
Qed.

(** A pass of [place_objects] places a beginning [names] of the tree,
    which leaves the root [r1]; then it returns with the scene added to
    [r1], or it raises with the root [r1]. *)
Lemma place_objects_outcome (no : nat) (w : World E) :
  exists names r1,
    places (root E w) r1 names
    /\ prefix names (preorder_root (root E w))
    /\ match place_objects E no w with
       | (Ok _, w') =>
           names = preorder_root (root E w)
           /\ root E w'
              = mkRootNode (root_base r1) (root_children r1)
                  (scenes r1
                   ++ [mkScene no (objects r1) (positions r1) (orientations r1)
                               (global_bboxes_json r1)])
                  (objects r1) (positions r1) (orientations r1)
                  (global_bboxes r1) (global_bboxes_json r1)
       | (Raise e, w') =>
           root E w' = r1
           /\ (e = IndexError
               \/ exists c, e = PlacementException c
                            /\ prefix (names ++ [c]) (preorder_root (root E w)))
       end.
Proof.
  rewrite place_objects_eq.
  destruct (root_loop_outcome w) as (names & Hpl & Hpre & Hok & Hex).
  exists names, (root E (snd (root_loop (root E w) w))).
  split; [assumption|]. split; [assumption|].
  destruct (root_loop (root E w) w) as [[[]|e] w']; cbn [fst snd] in *.
  - split; [now apply Hok | reflexivity].
  - split; [reflexivity | now apply Hex].
Qed.

End WholePass.

(** X8. A pass of [place_objects] places the nodes of the tree depth
    first, every node before its children and the children in the order
    they were added: the names it appends to [objects] are a beginning of
    that listing, each of them with a position and a box on record. When
    it returns they are the whole listing; when it raises, the exception
    is [IndexError] or the [PlacementException] of the first node of the
    listing that was not placed. *)
Theorem X8_place_objects_preorder (E : Environment) (no : nat) (w : World E) :
  exists names,
    objects (root E (snd (place_objects E no w)))
    = (objects (root E w) ++ names)%list
    /\ Forall (recorded (root E (snd (place_objects E no w)))) names
    /\ prefix names (preorder_root (root E w))
    /\ match fst (place_objects E no w) with
       | Ok _ => names = preorder_root (root E w)
       | Raise e =>
           e = IndexError
           \/ exists c, e = PlacementException c
                        /\ prefix (names ++ [c]) (preorder_root (root E w))
       end.
Proof.
  destruct (place_objects_outcome E no w)
    as (names & r1 & (_ & _ & _ & Hobj & _ & Hnew & _) & Hpre & Hrun).
  exists names.
  destruct (place_objects E no w) as [[[]|e] w']; cbn [fst snd].
  - destruct Hrun as [Hall ->]. cbn [objects].
    split; [assumption|]. split; [|split; assumption].
    apply Forall_forall. intros k Hk. exact (Hnew k Hk).
  - destruct Hrun as [-> Hexn].
    split; [assumption|]. split; [|split; assumption].
    apply Forall_forall. intros k Hk. exact (Hnew k Hk).
Qed.

(** X9. [place_objects] never raises [KeyError]: the lookups of a
    parent's position and box in [place_children] and
    [calc_distance_range] always find the parent, which was placed before
    its children. *)
Theorem X9_place_objects_no_KeyError (E : Environment) (no : nat) (w : World E)
        (k : string) :
  fst (place_objects E no w) <> Raise (KeyError k).
Proof.
  destruct (place_objects_outcome E no w) as (names & r1 & _ & _ & Hrun).
  destruct (place_objects E no w) as [[[]|e] w']; cbn [fst]; [discriminate|].
  destruct Hrun as [_ [->|(c & -> & _)]]; discriminate.
Qed.

(** X10. [place_objects] records a scene exactly when it returns: then
    it has appended one scene, labelled with its argument and holding the
    final tables of the root; when it raises, the list of scenes is as it
    was. *)
Theorem X10_scene_only_on_success (E : Environment) (no : nat) (w : World E) :
  match place_objects E no w with
  | (Ok _, w') =>
      scenes (root E w')
      = (scenes (root E w)
         ++ [mkScene no (objects (root E w')) (positions (root E w'))
                     (orientations (root E w')) (global_bboxes_json (root E w'))])%list
  | (Raise _, w') => scenes (root E w') = scenes (root E w)
  end.
Proof.
  destruct (place_objects_outcome E no w)
    as (names & r1 & (_ & _ & Hsc & _) & _ & Hrun).
  destruct (place_objects E no w) as [[[]|e] w'].
  - destruct Hrun as [_ ->]. cbn [scenes objects positions orientations
                                  global_bboxes_json]. now rewrite Hsc.
  - destruct Hrun as [-> _]. exact Hsc.
Qed.

(** ** The desk in use *)

(** A box that overlaps none of the recorded boxes passes the collision
    test. *)
Lemma in_collision_free (r : RootNode) (bbox : BBox) :
  (forall k b, dict_find (global_bboxes r) k = Some b -> ~ overlap2d bbox b) ->
  in_collision r bbox = Ok false.
Proof.
  intros Hfree. destruct (in_collision_spec r bbox) as ([|] & Hr & Hiff);
    [|assumption].
  destruct (proj1 Hiff eq_refl) as (k & b & Hk & Ho).
  destruct (Hfree k b Hk Ho).
Qed.

(** The recorded box a name stands for, on a concrete table of boxes. *)
Ltac find_box H :=
  repeat match type of H with
         | (if ?k =? ?s then _ else _) = Some _ =>
             destruct (k =? s);
             [injection H as <-; unfold overlap2d; cbn; unfold Z_DIST; lra|]
         end;
  try discriminate H.

Lemma busy_monitor_attempt :
  root_attempt desk (monitor "back" "any")
               (fst (south table_node)) (snd (south table_node)) busy_world0
  = (Ok true, busy_world1).
Proof.
  unfold root_attempt, gauss, draw, bind, get_root, ret.
  cbn [desk normal_variate rand morse root busy_world0 Nat.eqb].
  match goal with
  | |- try_candidate _ _ ?x ?y ?z _ = _ =>
      replace x with (49 / 10)
        by (cbn; unfold get_x_max, get_x_min; cbn; lra);
      replace y with 3
        by (cbn; unfold get_y_max, get_y_min; cbn; lra);
      replace z with (1 + 1 / 2 + Z_DIST)
        by (cbn; unfold get_z_max, get_z_min; cbn; lra)
  end.
  rewrite try_candidate_eq.
  assert (Hin : within_root_bbox busy_root (monitor "back" "any") (49 / 10) 3 = true).
  { apply within_root_bbox_true. cbn. unfold OBJECT_SCALE.
    rewrite Rmin_same by lra. lra. }
  cbn [root morse rand]. rewrite Hin.
  cbn [desk transform_to_obj_frame set_object_pose get_object_global_bbox
       monitor base name calc_anchors get_yaw dict_set String.eqb Ascii.eqb Bool.eqb].
  change (desk_pose "monitor1" _)
    with ((49 / 10, 3, 1 + 1 / 2 + Z_DIST), quaternion_about_axis 0 (0, 0, 1)).
  cbn [fst].
  change (desk_box "monitor1" (49 / 10, 3, 1 + 1 / 2 + Z_DIST))
    with (corners (49 / 10 - 1 / 2) (49 / 10 + 1 / 2) (3 - 1 / 2) (3 + 1 / 2)
                  (1 + 1 / 2 + Z_DIST - 1 / 2) (1 + 1 / 2 + Z_DIST + 1 / 2)).
  rewrite BBox_init_corners by (unfold Z_DIST; lra).
  rewrite in_collision_free; [reflexivity|].
  intros k b H. cbn in H. find_box H.
Qed.

Lemma busy_sample_monitor :
  sample_root_child desk (monitor "back" "any") "south" busy_world0
  = (Ok tt, busy_world1).
Proof.
  rewrite (sample_root_child_eq desk _ "south" _
             (fst (south table_node)) (snd (south table_node)))
    by reflexivity.
  unfold bind.
  rewrite (while_loop_stops desk _ MAX_NUM_OF_SAMPLES 0 0).
  - unfold verdict. cbn [world_after]. rewrite busy_monitor_attempt.
    reflexivity.
  - lia.
  - unfold MAX_NUM_OF_SAMPLES. lia.
  - intros j Hj. lia.
  - rewrite verdict_0, busy_monitor_attempt. discriminate.
Qed.

Lemma busy_world1_placed :
  placed desk busy_world1 (monitor "back" "any")
         (49 / 10) 3 (1 + 1 / 2 + Z_DIST) monitor_bbox table_bbox.
Proof.
  unfold placed. repeat split.
  simpl. unfold table_bbox.
  rewrite BBox_init_corners by lra. eq_R.
Qed.

Lemma busy_setup_back :
  relative_setup desk (monitor "back" "any") keyboard "back" "any" busy_world1
  = (Ok busy_relative, busy_world1).
Proof.
  rewrite relative_setup_eq.
  destruct busy_world1_placed as (H1 & _ & _). rewrite H1.
  change (get_direction "back") with (Ok Direction.back).
  change (get_object_pose desk _ _) with ((0, 0, 0), [1; 0; 0; 0]).
  cbn [fst].
  pose proof busy_world1_placed as H. 
  assert (Hr : calc_distance_range desk (monitor "back" "any") keyboard "back" "any"
                 busy_world1 = (Ok (9 / 10, 9 / 2), busy_world1)).
  { run_calc H.
    cbn [String.eqb Ascii.eqb Bool.eqb keyboard base local_bbox calc_anchors
         monitor_bbox table_bbox x_min x_max y_min y_max].
    rewrite Rmin_same by lra. unfold OBJECT_SCALE. eq_R. }
  rewrite Hr. reflexivity.
Qed.

Lemma busy_keyboard_attempt :
  relative_attempt desk keyboard busy_relative busy_world1 = (Ok true, busy_world2).
Proof.
  rewrite relative_attempt_eq, draw_polar_eq.
  cbn [desk normal_variate random busy_relative phi_mu min_dist max_dist
       busy_world1 rand morse root Nat.eqb self_x self_y root_x root_y].
  pose proof PI_RGT_0 as Hpi.
  replace (3 * PI / 2 + 0 * DIRECTION_SIGMA) with (3 * (PI / 2)) by lra.
  rewrite (proj2 (Rltb_false (3 * (PI / 2)) 0)) by lra.
  rewrite (proj2 (Rgtb_false (3 * (PI / 2)) (2 * PI))) by lra.
  rewrite sin_3PI2, cos_3PI2.
  match goal with
  | |- try_candidate _ _ ?x ?y ?z _ = _ =>
      replace x with (11 / 5) by lra;
      replace y with 3 by lra;
      replace z with (1 + 1 / 20 + Z_DIST)
        by (cbn; unfold get_z_max, get_z_min; cbn; lra)
  end.
  rewrite try_candidate_eq.
  assert (Hin : within_root_bbox busy_root1 keyboard (11 / 5) 3 = true).
  { apply within_root_bbox_true. cbn. unfold OBJECT_SCALE.
    rewrite Rmin_same by lra. lra. }
  cbn [root morse rand]. rewrite Hin.
  cbn [desk transform_to_obj_frame set_object_pose get_object_global_bbox
       keyboard base name calc_anchors get_yaw dict_set String.eqb Ascii.eqb Bool.eqb].
  change (desk_pose "keyboard1" _)
    with ((11 / 5, 3, 1 + 1 / 20 + Z_DIST), quaternion_about_axis 0 (0, 0, 1)).
  cbn [fst].
  change (desk_box "keyboard1" (11 / 5, 3, 1 + 1 / 20 + Z_DIST))
    with (corners (11 / 5 - 2 / 5) (11 / 5 + 2 / 5) (3 - 2 / 5) (3 + 2 / 5)
                  (1 + 1 / 20 + Z_DIST - 1 / 20) (1 + 1 / 20 + Z_DIST + 1 / 20)).
  rewrite BBox_init_corners by (unfold Z_DIST; lra).
  rewrite in_collision_free; [reflexivity|].
  intros k b H. cbn in H. find_box H.
Qed.

Lemma busy_sample_keyboard :
  sample_relative_child desk (monitor "back" "any") keyboard "back" "any"
                        busy_world1
  = (Ok tt, busy_world2).
Proof.
  rewrite (sample_relative_child_eq desk _ _ _ _ _ _ _ busy_setup_back).
  unfold bind.
  rewrite (while_loop_stops desk _ MAX_NUM_OF_SAMPLES 0 0).
  - unfold verdict. cbn [world_after]. rewrite busy_keyboard_attempt.
    reflexivity.
  - lia.
  - unfold MAX_NUM_OF_SAMPLES. lia.
  - intros j Hj. lia.
  - rewrite verdict_0, busy_keyboard_attempt. discriminate.
Qed.

Lemma busy_place_objects :
  place_objects desk 1 busy_world0
  = (Ok tt, mkWorld desk (morse desk busy_world2) 4%nat (with_scene busy_root2 1)).
Proof.
  unfold place_objects.
  unfold bind at 1. unfold get_root. cbv beta iota.
  cbn [root busy_world0 busy_root record_placement desk_root root_children for_each].
  unfold bind at 1. unfold bind at 1. unfold bind at 1.
  rewrite busy_sample_monitor. cbv beta iota.
  unfold bind at 1.
  cbn [place_children monitor children for_each].
  unfold bind at 1. unfold bind at 1.
  change (mkObjectNode _ 0 [(keyboard, "back", "any")])
    with (monitor "back" "any").
  rewrite busy_sample_keyboard. cbv beta iota.
  reflexivity.
Qed.

(** X11. If no two boxes recorded under different names overlap before a
    pass of [place_objects], none do after it, whether it returns or
    raises. *)
Theorem X11_boxes_stay_disjoint (E : Environment) (no : nat) (w : World E) :
  disjoint_boxes (root E w) ->
  disjoint_boxes (root E (snd (place_objects E no w))).
Proof.
  intros Hd.
  destruct (place_objects_outcome E no w)
    as (names & r1 & (_ & _ & _ & _ & _ & _ & Hdis) & _ & Hrun).
  destruct (place_objects E no w) as [[[]|e] w']; cbn [snd].
  - destruct Hrun as [_ ->]. exact (Hdis Hd).
  - destruct Hrun as [-> _]. exact (Hdis Hd).
Qed.

Lemma X11_boxes_stay_disjoint_witness :
  keys (global_bboxes (root desk busy_world0)) = ["lamp1"; "cup1"]
  /\ keys (global_bboxes (root desk (snd (place_objects desk 1 busy_world0))))
     = ["lamp1"; "cup1"; "monitor1"; "keyboard1"]
  /\ disjoint_boxes (root desk (snd (place_objects desk 1 busy_world0))).
Proof.
  split; [reflexivity|]. split.
  - rewrite busy_place_objects. reflexivity.
  - apply X11_boxes_stay_disjoint.
    intros k1 k2 b1 b2 Hne H1 H2. cbn in H1, H2.
    destruct (String.eqb_spec k1 "lamp1") as [->|N1].
    + injection H1 as <-.
      destruct (String.eqb_spec k2 "lamp1") as [->|_]; [congruence|].
      destruct (k2 =? "cup1"); [|discriminate].
      injection H2 as <-. unfold overlap2d. cbn. lra.
    + destruct (String.eqb_spec k1 "cup1") as [->|_]; [|discriminate].
      injection H1 as <-.
      destruct (k2 =? "lamp1").
      * injection H2 as <-. unfold overlap2d. cbn. lra.
      * destruct (String.eqb_spec k2 "cup1") as [->|_]; [congruence|discriminate].
Defined.

(** ** Objects too large for the surface *)

(** The containment test fails everywhere for an object whose smaller
    footprint dimension, scaled, is at least half the width or half the
    depth of the surface. *)
Lemma within_root_bbox_too_large (self : RootNode) (object : ObjectNode) :
  let s := local_bbox (root_base self) in
  let o := local_bbox (base object) in
  let d := Rmin (x_max o - x_min o) (y_max o - y_min o) * OBJECT_SCALE in
  x_max s - x_min s <= 2 * d \/ y_max s - y_min s <= 2 * d ->
  forall x y, within_root_bbox self object x y = false.
Proof.
  intros s o d Hbig x y.
  destruct (within_root_bbox self object x y) eqn:Hin; [|reflexivity].
  apply within_root_bbox_true in Hin. fold s o d in Hin. lra.
Qed.

(** X13. An object whose smaller footprint dimension (times
    [OBJECT_SCALE]) is at least half the width or half the depth of the
    surface fails the containment test at every point: the loop of
    [place_objects] for it makes all its [MAX_NUM_OF_SAMPLES] passes and
    raises [PlacementException] with its name, no pose is sent to the
    simulator and the root is as it was. *)
Theorem X13_too_large_never_placed (E : Environment) (c : ObjectNode)
        (anchor : string) (w : World E) :
  let s := local_bbox (root_base (root E w)) in
  let o := local_bbox (base c) in
  let d := Rmin (x_max o - x_min o) (y_max o - y_min o) * OBJECT_SCALE in
  x_max s - x_min s <= 2 * d \/ y_max s - y_min s <= 2 * d ->
  (forall x y, within_root_bbox (root E w) c x y = false)
  /\ fst (sample_root_child E c anchor w)
     = Raise (PlacementException (name (base c)))
  /\ (exists x_mu y_mu,
        snd (sample_root_child E c anchor w)
        = world_after E (root_attempt E c x_mu y_mu) MAX_NUM_OF_SAMPLES w)
  /\ morse E (snd (sample_root_child E c anchor w)) = morse E w
  /\ root E (snd (sample_root_child E c anchor w)) = root E w.
Proof.
  intros s o d Hbig.
  pose proof (within_root_bbox_too_large (root E w) c Hbig) as Hout.
  split; [exact Hout|].
  destruct (get_anchor_total (root_base (root E w)) anchor) as (x_mu & y_mu & Ha).
  rewrite (sample_root_child_eq E c anchor w x_mu y_mu Ha).
  assert (Hrej : forall w', root E w' = root E w ->
                   fst (root_attempt E c x_mu y_mu w') = Ok false
                   /\ morse E (snd (root_attempt E c x_mu y_mu w')) = morse E w'
                   /\ root E (snd (root_attempt E c x_mu y_mu w')) = root E w').
  { intros w' Hw'.
    unfold root_attempt, gauss, draw, bind, get_root, ret. cbn [root rand morse].
    destruct (normal_variate E (rand E w')) as [z1 g1]. cbn [root rand morse].
    destruct (normal_variate E g1) as [z2 g2]. cbn [root rand morse].
    rewrite try_candidate_eq. cbn [root rand morse].
    rewrite Hw', Hout. cbn [fst snd morse root]. auto. }
  assert (Hafter : forall k,
             morse E (world_after E (root_attempt E c x_mu y_mu) k w) = morse E w
             /\ root E (world_after E (root_attempt E c x_mu y_mu) k w) = root E w).
  { induction k as [|k [IHm IHr]]; [split; reflexivity|].
    rewrite world_after_S.
    destruct (Hrej _ IHr) as (_ & Hm & Hr). split; congruence. }
  unfold bind.
  rewrite (while_loop_rejects E _ _ 0 w).
  - cbv beta iota.
    change (MAX_NUM_OF_SAMPLES <=? 0 + MAX_NUM_OF_SAMPLES)%nat with true.
    cbv beta iota. unfold raise. cbn [fst snd].
    split; [reflexivity|]. split; [eauto|]. apply Hafter.
  - lia.
  - intros k _. unfold verdict. apply Hrej. apply Hafter.
Qed.

Lemma X13_too_large_never_placed_witness :
  fst (sample_root_child desk pc_case "center" (desk_world0 "front" "any"))
  = Raise (PlacementException "pc1")
  /\ root desk (snd (sample_root_child desk pc_case "center"
                                       (desk_world0 "front" "any")))
     = desk_root "front" "any".
Proof.
  assert (Hbig : let s := local_bbox (root_base (root desk (desk_world0 "front" "any"))) in
                 let o := local_bbox (base pc_case) in
                 let d := Rmin (x_max o - x_min o) (y_max o - y_min o)
                          * OBJECT_SCALE in
                 x_max s - x_min s <= 2 * d \/ y_max s - y_min s <= 2 * d).
  { cbn. unfold OBJECT_SCALE. rewrite Rmin_same by lra. left. lra. }
  destruct (X13_too_large_never_placed desk pc_case "center"
              (desk_world0 "front" "any") Hbig) as (_ & H1 & _ & _ & H2).
  exact (conj H1 H2).
Defined.

(** ** More on distance ranges *)

(** X14. For the four cardinal directions and the class [any], the
    length [max_dist - min_dist] of the range is the gap between the
    parent's box and the edge of the root surface on that side, less the
    child's smaller footprint dimension (times [OBJECT_SCALE]); it does not
    depend on where the parent's position lies. *)
Theorem X14_cardinal_range_length (E : Environment) (w : World E)
        (self object : ObjectNode) (x y z : R) (ob rb : BBox) :
  placed E w self x y z ob rb ->
  let o := local_bbox (base object) in
  let d := Rmin (x_max o - x_min o) (y_max o - y_min o) * OBJECT_SCALE in
  let length_is direction gap :=
    exists mn mx,
      calc_distance_range E self object direction "any" w = (Ok (mn, mx), w)
      /\ mx - mn = gap - d in
  length_is "front" (x_max rb - x_max ob)
  /\ length_is "back" (x_min ob - x_min rb)
  /\ length_is "right" (y_max rb - y_max ob)
  /\ length_is "left" (y_min ob - y_min rb).
Proof.
  intros H o d length_is. subst length_is o d. unfold OBJECT_SCALE.
  repeat split; run_calc H; cbn [String.eqb Ascii.eqb Bool.eqb];
    eexists _, _; (split; [reflexivity|]); unfold OBJECT_SCALE;
    set (m := Rmin _ _); lra.
Qed.

Lemma X14_cardinal_range_length_witness :
  exists mn mx,
    calc_distance_range desk (monitor "front" "any") keyboard "front" "any"
                        (desk_world1 "front" "any")
    = (Ok (mn, mx), desk_world1 "front" "any")
    /\ mx - mn
       = x_max table_bbox - x_max monitor_bbox
         - Rmin (x_max (local_bbox (base keyboard)) - x_min (local_bbox (base keyboard)))
                (y_max (local_bbox (base keyboard)) - y_min (local_bbox (base keyboard)))
           * OBJECT_SCALE.
Proof.
  exact (proj1 (X14_cardinal_range_length desk _ (monitor "front" "any") keyboard
                  _ _ _ _ _ (desk_world1_placed "front" "any"))).
Defined.

Lemma sqrt_two_squares (m : R) : sqrt (2 * m ^ 2) = sqrt 2 * Rabs m.
Proof.
  rewrite sqrt_mult_alt by lra. f_equal.
  replace (m ^ 2) with (Rsqr m) by (unfold Rsqr; ring).
  apply sqrt_Rsqr_abs.
Qed.

(** X15. For the four diagonal directions and the class [any], the two
    ends of the range are [sqrt 2 * |g| + c] and [sqrt 2 * |G| - c], for the
    smaller [g] of the two gaps to the parent's own box and the smaller [G]
    of the two gaps to the box of the root surface: a negative smaller gap
    counts with its absolute value. *)
Theorem X15_diagonal_range_abs (E : Environment) (w : World E)
        (self object : ObjectNode) (x y z : R) (ob rb : BBox) :
  placed E w self x y z ob rb ->
  let o := local_bbox (base object) in
  let c := (Rmin (x_max o - x_min o) (y_max o - y_min o) * OBJECT_SCALE) / 2 in
  let range ga gb Ga Gb :=
    (Ok (sqrt 2 * Rabs (Rmin ga gb) + c, sqrt 2 * Rabs (Rmin Ga Gb) - c), w) in
  calc_distance_range E self object "right_back" "any" w
  = range (x - x_min ob) (y_max ob - y) (x - x_min rb) (y_max rb - y)
  /\ calc_distance_range E self object "right_front" "any" w
     = range (x_max ob - x) (y_max ob - y) (x_max rb - x) (y_max rb - y)
  /\ calc_distance_range E self object "left_front" "any" w
     = range (x_max ob - x) (y - y_min ob) (x_max rb - x) (y - y_min rb)
  /\ calc_distance_range E self object "left_back" "any" w
     = range (x - x_min ob) (y - y_min ob) (x - x_min rb) (y - y_min rb).
Proof.
  intros H o c range. subst range o c.
  repeat split; run_calc H; cbn [String.eqb Ascii.eqb Bool.eqb];
    rewrite !sqrt_two_squares; reflexivity.
Qed.

Lemma X15_diagonal_range_abs_witness :
  let o := local_bbox (base keyboard) in
  let c := (Rmin (x_max o - x_min o) (y_max o - y_min o) * OBJECT_SCALE) / 2 in
  calc_distance_range desk (monitor "left_back" "any") keyboard "left_back" "any"
                      (desk_world1 "left_back" "any")
  = (Ok (sqrt 2 * Rabs (Rmin (49 / 10 - x_min monitor_bbox)
                             (3 - y_min monitor_bbox)) + c,
         sqrt 2 * Rabs (Rmin (49 / 10 - x_min table_bbox)
                             (3 - y_min table_bbox)) - c),
     desk_world1 "left_back" "any").
Proof.
  exact (proj2 (proj2 (proj2
           (X15_diagonal_range_abs desk _ (monitor "left_back" "any") keyboard
              _ _ _ _ _ (desk_world1_placed "left_back" "any"))))).
Defined.

(** ** What the directions mean *)

Lemma sin_7PI4 : sin (7 * PI / 4) = -1 / sqrt 2.
Proof.
  replace (7 * PI / 4) with (- (PI / 4) + 2 * INR 1 * PI) by (simpl; lra).
  rewrite sin_period, sin_neg, sin_PI4. unfold Rdiv. ring.
Qed.

Lemma cos_7PI4 : cos (7 * PI / 4) = 1 / sqrt 2.
Proof.
  replace (7 * PI / 4) with (- (PI / 4) + 2 * INR 1 * PI) by (simpl; lra).
  now rewrite cos_period, cos_neg, cos_PI4.
Qed.

(** The offset [(sin phi, cos phi)] of a candidate at distance 1, for the
    angle of a direction. *)
Lemma direction_offsets :
  (sin Direction.front = 1 /\ cos Direction.front = 0)
  /\ (sin Direction.back = -1 /\ cos Direction.back = 0)
  /\ (sin Direction.right = 0 /\ cos Direction.right = 1)
  /\ (sin Direction.left = 0 /\ cos Direction.left = -1)
  /\ (sin Direction.right_front = 1 / sqrt 2
      /\ cos Direction.right_front = 1 / sqrt 2)
  /\ (sin Direction.left_front = 1 / sqrt 2
      /\ cos Direction.left_front = -1 / sqrt 2)
  /\ (sin Direction.left_back = -1 / sqrt 2
      /\ cos Direction.left_back = -1 / sqrt 2)
  /\ (sin Direction.right_back = -1 / sqrt 2
      /\ cos Direction.right_back = 1 / sqrt 2).
Proof.
  unfold Direction.front, Direction.back, Direction.right, Direction.left,
    Direction.right_front, Direction.left_front, Direction.left_back,
    Direction.right_back.
  replace (3 * PI / 2) with (3 * (PI / 2)) by lra.
  replace (3 * PI / 4) with (3 * (PI / 4)) by lra.
  replace (5 * PI / 4) with (5 * (PI / 4)) by lra.
  rewrite sin_PI2, cos_PI2, sin_3PI2, cos_3PI2, sin_0, cos_0, sin_PI, cos_PI,
    sin_PI4, cos_PI4, sin_3PI4, cos_3PI4, sin_5PI4, cos_5PI4, sin_7PI4, cos_7PI4.
  repeat split; reflexivity.
Qed.

(** X16. The names of the directions, as [place_children] turns them into
    offsets [(sin phi, cos phi)]: [front] is the positive x axis, [back] the
    negative x axis, [right] the positive y axis, [left] the negative y
    axis, and the four diagonals have both components of size [1 / sqrt 2],
    with the signs of the two neighbours. *)
Theorem X16_direction_offsets :
  let offset name :=
    match get_direction name with
    | Ok phi => Ok (sin phi, cos phi)
    | Raise e => Raise e
    end in
  offset "front" = Ok (1, 0)
  /\ offset "back" = Ok (-1, 0)
  /\ offset "right" = Ok (0, 1)
  /\ offset "left" = Ok (0, -1)
  /\ offset "right_front" = Ok (1 / sqrt 2, 1 / sqrt 2)
  /\ offset "left_front" = Ok (1 / sqrt 2, -1 / sqrt 2)
  /\ offset "left_back" = Ok (-1 / sqrt 2, -1 / sqrt 2)
  /\ offset "right_back" = Ok (-1 / sqrt 2, 1 / sqrt 2).
Proof.
  destruct direction_offsets
    as ((F1 & F2) & (B1 & B2) & (R1 & R2) & (L1 & L2) & (RF1 & RF2)
        & (LF1 & LF2) & (LB1 & LB2) & (RB1 & RB2)).
  cbv zeta. unfold get_direction. cbn [String.eqb Ascii.eqb Bool.eqb].
  rewrite F1, F2, B1, B2, R1, R2, L1, L2, RF1, RF2, LF1, LF2, LB1, LB2, RB1, RB2.
  repeat split; reflexivity.
Qed.

(** X17. The cardinal directions and their ranges agree: a candidate
    drawn at exactly the angle of the direction lies, at [min_dist], half
    the child's smaller footprint dimension beyond the edge of the parent's
    box on the side of the direction, and at [max_dist] (class [any]) as
    much inside the edge of the box of the root surface; the other
    coordinate is the parent's. *)
Theorem X17_cardinal_range_ends (E : Environment) (w : World E)
        (self object : ObjectNode) (x y z : R) (ob rb : BBox) :
  placed E w self x y z ob rb ->
  let o := local_bbox (base object) in
  let c := (Rmin (x_max o - x_min o) (y_max o - y_min o) * OBJECT_SCALE) / 2 in
  let ends direction near far :=
    exists phi mn mx,
      get_direction direction = Ok phi
      /\ calc_distance_range E self object direction "any" w = (Ok (mn, mx), w)
      /\ (x + sin phi * mn, y + cos phi * mn) = near
      /\ (x + sin phi * mx, y + cos phi * mx) = far in
  ends "front" (x_max ob + c, y) (x_max rb - c, y)
  /\ ends "back" (x_min ob - c, y) (x_min rb + c, y)
  /\ ends "right" (x, y_max ob + c) (x, y_max rb - c)
  /\ ends "left" (x, y_min ob - c) (x, y_min rb + c).
Proof.
  intros H o c ends. subst ends o c.
  destruct direction_offsets
    as ((F1 & F2) & (B1 & B2) & (R1 & R2) & (L1 & L2) & _).
  repeat split; eexists _, _, _; (split; [reflexivity|]);
    (split; [run_calc H; cbn [String.eqb Ascii.eqb Bool.eqb]; reflexivity|]);
    rewrite ?F1, ?F2, ?B1, ?B2, ?R1, ?R2, ?L1, ?L2;
    split; f_equal; lra.
Qed.

Lemma X17_cardinal_range_ends_witness :
  exists phi mn mx,
    get_direction "front" = Ok phi
    /\ calc_distance_range desk (monitor "front" "any") keyboard "front" "any"
                           (desk_world1 "front" "any")
       = (Ok (mn, mx), desk_world1 "front" "any")
    /\ (49 / 10 + sin phi * mn, 3 + cos phi * mn)
       = (x_max monitor_bbox
          + (Rmin (x_max (local_bbox (base keyboard)) - x_min (local_bbox (base keyboard)))
                  (y_max (local_bbox (base keyboard)) - y_min (local_bbox (base keyboard)))
             * OBJECT_SCALE) / 2, 3)
    /\ (49 / 10 + sin phi * mx, 3 + cos phi * mx)
       = (x_max table_bbox
          - (Rmin (x_max (local_bbox (base keyboard)) - x_min (local_bbox (base keyboard)))
                  (y_max (local_bbox (base keyboard)) - y_min (local_bbox (base keyboard)))
             * OBJECT_SCALE) / 2, 3).
Proof.
  exact (proj1 (X17_cardinal_range_ends desk _ (monitor "front" "any") keyboard
                  _ _ _ _ _ (desk_world1_placed "front" "any"))).
Defined.

(** ** The angle of a candidate *)

Lemma sin_cos_plus_2PI (x : R) : sin (x + 2 * PI) = sin x /\ cos (x + 2 * PI) = cos x.
Proof.
  replace (x + 2 * PI) with (x + 2 * INR 1 * PI) by (simpl; lra).
  split; [apply sin_period | apply cos_period].
Qed.

Lemma sin_cos_minus_2PI (x : R) : sin (x - 2 * PI) = sin x /\ cos (x - 2 * PI) = cos x.
Proof.
  destruct (sin_cos_plus_2PI (x - 2 * PI)) as [Hs Hc].
  replace (x - 2 * PI + 2 * PI) with x in Hs, Hc by lra. split; congruence.
Qed.

(** X18. The two corrections [place_children] applies to the drawn angle
    add or subtract a full turn at most once: they never change the sine
    and the cosine, and so never the candidate; the corrected angle lies
    between 0 and [2 * PI] unless the drawn angle is below [- 2 * PI] or
    above [4 * PI]. *)
Theorem X18_angle_correction (E : Environment) (p : Relative) (w : World E) :
  let raw := phi_mu p + fst (normal_variate E (rand E w)) * DIRECTION_SIGMA in
  exists phi dist w',
    draw_polar E p w = (Ok (phi, dist), w')
    /\ sin phi = sin raw /\ cos phi = cos raw
    /\ (phi = raw \/ phi = raw + 2 * PI \/ phi = raw - 2 * PI)
    /\ (0 <= phi <= 2 * PI \/ raw < - (2 * PI) \/ 4 * PI < raw).
Proof.
  intros raw. subst raw. rewrite draw_polar_eq.
  destruct (normal_variate E (rand E w)) as [z0 g1]. cbn [fst].
  destruct (random E g1) as [u g2]. cbv zeta.
  set (raw := phi_mu p + z0 * DIRECTION_SIGMA).
  pose proof PI_RGT_0 as Hpi.
  destruct (sin_cos_plus_2PI raw) as [Hs1 Hc1].
  destruct (sin_cos_minus_2PI raw) as [Hs2 Hc2].
  eexists _, _, _. split; [reflexivity|].
  destruct (Rltb raw 0) eqn:Hlt.
  - apply Rltb_true in Hlt.
    rewrite (proj2 (Rgtb_false (raw + 2 * PI) (2 * PI))) by lra.
    split; [exact Hs1|]. split; [exact Hc1|]. split; [right; left; reflexivity|].
    destruct (Rle_lt_dec (- (2 * PI)) raw); [left; lra | right; left; lra].
  - apply Rltb_false in Hlt.
    destruct (Rgtb raw (2 * PI)) eqn:Hgt.
    + apply Rgtb_true in Hgt.
      split; [exact Hs2|]. split; [exact Hc2|].
      split; [right; right; reflexivity|].
      destruct (Rle_lt_dec raw (4 * PI)); [left; lra | right; right; lra].
    + apply Rgtb_false in Hgt.
      split; [reflexivity|]. split; [reflexivity|].
      split; [left; reflexivity|]. left; lra.
Qed.

(** ** More on the collision test *)

(** X19. The collision test is symmetric: a box collides with a recorded
    one exactly when the recorded one would collide with it; nothing
    collides on a surface without recorded boxes; and boxes that only
    touch, sharing an edge in x while their y extents meet, do collide, the
    comparisons being inclusive. *)
Theorem X19_collision_symmetric_inclusive (r : RootNode) (k : string)
        (a b : BBox) :
  x_max a = x_min b -> x_min a <= x_max a -> x_min b <= x_max b ->
  y_min a <= y_max b -> y_min b <= y_max a ->
  in_collision (with_global_bboxes r [(k, a)]) b = Ok true
  /\ (forall a' b' : BBox,
        in_collision (with_global_bboxes r [(k, a')]) b'
        = in_collision (with_global_bboxes r [(k, b')]) a')
  /\ (forall b' : BBox, in_collision (with_global_bboxes r []) b' = Ok false).
Proof.
  intros Htouch Ha Hb Hy1 Hy2. split; [|split].
  - destruct (in_collision_spec (with_global_bboxes r [(k, a)]) b)
      as (x & -> & Hiff).
    f_equal. apply Hiff. exists k, a. split.
    + simpl. now rewrite String.eqb_refl.
    + unfold overlap2d. lra.
  - intros a' b'. apply in_collision_ext. simpl.
    split; intros (k' & c & Hf & Ho);
      (destruct (String.eqb k' k); [|discriminate]); injection Hf as <-.
    + exists k, b'. rewrite String.eqb_refl.
      split; [reflexivity | now apply overlap2d_sym].
    + exists k, a'. rewrite String.eqb_refl.
      split; [reflexivity | now apply overlap2d_sym].
  - intros b'. reflexivity.
Qed.

Lemma X19_collision_symmetric_inclusive_witness :
  in_collision (with_global_bboxes (desk_root "front" "any")
                                   [("pc1", mkBBox 0 1 0 1 0 1)])
               (mkBBox 1 2 0 1 0 1)
  = Ok true.
Proof.
  refine (proj1 (X19_collision_symmetric_inclusive (desk_root "front" "any") "pc1"
                   (mkBBox 0 1 0 1 0 1) (mkBBox 1 2 0 1 0 1) _ _ _ _ _));
    simpl; lra.
Defined.

(** ** Nodes as they are constructed *)

Lemma BBox_init_ordered (bbox : json_bbox) (b : BBox) :
  BBox_init bbox = Ok b ->
  x_min b <= x_max b /\ y_min b <= y_max b /\ z_min b <= z_max b.
Proof.
  intros Hb. destruct (BBox_init_wf bbox b Hb) as [Hlen H3].
  rewrite (BBox_init_sorted_coords bbox H3 Hlen) in Hb. injection Hb as <-.
  simpl. repeat split; (apply ascending_nth;
    [apply sorted_coords_ascending | lia | rewrite sorted_coords_length; lia]).
Qed.

Lemma AbstractNode_init_eq (E : Environment) (object : string) (w : World E) :
  AbstractNode_init E object w
  = match BBox_init (get_object_bbox E object (morse E w)) with
    | Ok b => (Ok (calc_anchors object b), w)
    | Raise e => (Raise e, w)
    end.
Proof.
  unfold AbstractNode_init, bind, rpc, lift, ret.
  destruct (BBox_init _); reflexivity.
Qed.

(** X20. A node that [AbstractNode.__init__] returns carries the name it
    was given and the box of the corners the simulator reports; its nine
    anchors lie inside that box, [center] at its middle, and its two sigmas
    are not negative. The simulator is asked, never changed. *)
Theorem X20_node_anchors_inside (E : Environment) (object : string)
        (w w' : World E) (n : AbstractNode) :
  AbstractNode_init E object w = (Ok n, w') ->
  let b := local_bbox n in
  w' = w
  /\ name n = object
  /\ BBox_init (get_object_bbox E object (morse E w)) = Ok b
  /\ Forall (fun a => exists ax ay,
               get_anchor n a = Ok (ax, ay)
               /\ x_min b <= ax <= x_max b /\ y_min b <= ay <= y_max b)
            anchor_names
  /\ get_anchor n "center"
     = Ok ((x_min b + x_max b) / 2, (y_min b + y_max b) / 2)
  /\ 0 <= x_sigma n /\ 0 <= y_sigma n.
Proof.
  rewrite AbstractNode_init_eq.
  destruct (BBox_init _) as [b0|e] eqn:Hb; [|discriminate].
  intros H. injection H as <- <-. cbv zeta.
  destruct (BBox_init_ordered _ _ Hb) as (Hx & Hy & _).
  cbn [local_bbox calc_anchors name x_sigma y_sigma].
  unfold get_x_min, get_x_max, get_y_min, get_y_max.
  split; [reflexivity|]. split; [reflexivity|]. split; [reflexivity|].
  split; [|split; [|split]].
  - unfold anchor_names.
    repeat (apply Forall_cons;
            [eexists _, _; split; [reflexivity|];
             unfold get_x_min, get_x_max, get_y_min, get_y_max; lra|]).
    apply Forall_nil.
  - unfold get_anchor. cbn [String.eqb Ascii.eqb Bool.eqb center].
    f_equal. unfold calc_anchors, get_x_min, get_x_max, get_y_min, get_y_max.
    cbn [center]. f_equal; lra.
  - apply Rle_0_sqr.
  - apply Rle_0_sqr.
Qed.

Lemma X20_node_anchors_inside_witness :
  0 <= x_sigma (calc_anchors "table" (mkBBox 0 (0 + 6) 0 (0 + 6) 0 (0 + 1))).
Proof.
  assert (H : AbstractNode_init desk "table" (desk_world0 "front" "any")
              = (Ok (calc_anchors "table" (mkBBox 0 (0 + 6) 0 (0 + 6) 0 (0 + 1))),
                 desk_world0 "front" "any")).
  { rewrite AbstractNode_init_eq.
    change (get_object_bbox desk "table" _)
      with (corners 0 (0 + 6) 0 (0 + 6) 0 (0 + 1)).
    now rewrite BBox_init_corners by lra. }
  exact (proj1 (proj2 (proj2 (proj2 (proj2 (proj2
           (X20_node_anchors_inside desk "table" _ _ _ H))))))).
Defined.

(** ** The scene loader *)

Lemma split_without_separator (sep : Ascii.ascii) (s : string) :
  ~ In sep (list_ascii_of_string s) -> split sep s = (s, []).
Proof.
  induction s as [|c s IH]; simpl; intros Hno; [reflexivity|].
  rewrite IH by tauto.
  destruct (Ascii.eqb_spec c sep) as [->|_]; [tauto | reflexivity].
Qed.

(** X21. [obj_name] does not depend on its [offset]: with [SET_SIZE = 0]
    every offset gives the same name, or the same [ValueError]; and a name
    without a dot is returned as it is. *)
Theorem X21_obj_name_ignores_offset (int : string -> parsed Z) (str : Z -> string)
        (obj plain : string) (offset offset' : Z) :
  ~ In "."%char (list_ascii_of_string plain) ->
  obj_name int str obj offset = obj_name int str obj offset'
  /\ obj_name int str plain offset = Parsed plain.
Proof.
  intros Hno. split.
  - unfold obj_name. destruct (split "." obj) as [part0 [|part1 rest]];
      reflexivity.
  - unfold obj_name. rewrite (split_without_separator _ _ Hno). reflexivity.
Qed.

Lemma X21_obj_name_ignores_offset_witness :
  obj_name (fun _ => ValueError) (fun _ => "") "cup.001" 0
  = obj_name (fun _ => ValueError) (fun _ => "") "cup.001" 3
  /\ obj_name (fun _ => ValueError) (fun _ => "") "table" 0 = Parsed "table".
Proof.
  apply X21_obj_name_ignores_offset.
  simpl. intuition discriminate.
Defined.

Lemma quaternion_multiply_four (a0 a1 a2 a3 b0 b1 b2 b3 : R)
      (r1 r2 : list R) :
  quaternion_multiply (a0 :: a1 :: a2 :: a3 :: r1) (b0 :: b1 :: b2 :: b3 :: r2)
  = Ok [a0 * b0 - a1 * b1 - a2 * b2 - a3 * b3;
        a0 * b1 + a1 * b0 + a2 * b3 - a3 * b2;
        a0 * b2 - a1 * b3 + a2 * b0 + a3 * b1;
        a0 * b3 + a1 * b2 - a2 * b1 + a3 * b0].
Proof. reflexivity. Qed.

Lemma four_or_short (q : list R) :
  (exists a0 a1 a2 a3 r, q = a0 :: a1 :: a2 :: a3 :: r)
  \/ (List.length q < 4)%nat.
Proof.
  destruct q as [|a0 [|a1 [|a2 [|a3 r]]]]; simpl; try (right; lia).
  left. eauto 6.
Qed.

Lemma quaternion_multiply_short (q1 q2 : list R) :
  (List.length q1 < 4)%nat \/ (List.length q2 < 4)%nat ->
  quaternion_multiply q1 q2 = Raise IndexError.
Proof.
  intros H. unfold quaternion_multiply.
  repeat match goal with
         | |- context [rbind (getitem ?l ?i) _] =>
             let Hg := fresh "Hg" in
             destruct (getitem l i) eqn:Hg; simpl;
             [| f_equal; now apply getitem_raises in Hg]
         end.
  exfalso. unfold getitem in *.
  destruct H as [H|H].
  - rewrite (proj2 (nth_error_None q1 3)) in Hg5 by lia. discriminate.
  - rewrite (proj2 (nth_error_None q2 3)) in Hg6 by lia. discriminate.
Qed.

(** X22. [quaternion_multiply] returns exactly when both its arguments
    have at least four components, and raises [IndexError] otherwise;
    components after the fourth are ignored, and the result has four
    components. *)
Theorem X22_quaternion_multiply_defined (q1 q2 : list R) :
  ((exists q, quaternion_multiply q1 q2 = Ok q) <->
   (4 <= List.length q1)%nat /\ (4 <= List.length q2)%nat)
  /\ (quaternion_multiply q1 q2 = Raise IndexError <->
      (List.length q1 < 4)%nat \/ (List.length q2 < 4)%nat)
  /\ quaternion_multiply q1 q2 = quaternion_multiply (firstn 4 q1) (firstn 4 q2)
  /\ match quaternion_multiply q1 q2 with
     | Ok q => List.length q = 4%nat
     | Raise _ => True
     end.
Proof.
  assert (Hshort : forall p1 p2 : list R,
             (List.length p1 < 4)%nat \/ (List.length p2 < 4)%nat ->
             quaternion_multiply p1 p2 = Raise IndexError
             /\ quaternion_multiply (firstn 4 p1) (firstn 4 p2) = Raise IndexError).
  { intros p1 p2 H. split; apply quaternion_multiply_short; [exact H|].
    rewrite !length_firstn. lia. }
  destruct (four_or_short q1) as [(a0 & a1 & a2 & a3 & r1 & ->)|H1];
    [destruct (four_or_short q2) as [(b0 & b1 & b2 & b3 & r2 & ->)|H2]|].
  - rewrite quaternion_multiply_four. simpl.
    split; [|split; [|split]].
    + split; [intros _; lia | eauto].
    + split; [discriminate | intros [H|H]; lia].
    + reflexivity.
    + reflexivity.
  - destruct (Hshort (a0 :: a1 :: a2 :: a3 :: r1) q2 (or_intror H2)) as [-> ->].
    split; [|split; [|split]].
    + split; [intros [q Hq]; discriminate | intros; lia].
    + split; [intros _; now right | reflexivity].
    + reflexivity.
    + exact I.
  - destruct (Hshort q1 q2 (or_introl H1)) as [-> ->].
    split; [|split; [|split]].
    + split; [intros [q Hq]; discriminate | intros; lia].
    + split; [intros _; now left | reflexivity].
    + reflexivity.
    + exact I.
Qed.

Lemma quaternion_multiply_raises (q1 q2 : list R) (e : exn) :
  quaternion_multiply q1 q2 = Raise e -> e = IndexError.
Proof.
  destruct (four_or_short q1) as [(a0 & a1 & a2 & a3 & r1 & ->)|H1];
    [destruct (four_or_short q2) as [(b0 & b1 & b2 & b3 & r2 & ->)|H2]|].
  - rewrite quaternion_multiply_four. discriminate.
  - rewrite quaternion_multiply_short by now right. congruence.
  - rewrite quaternion_multiply_short by now left. congruence.
Qed.

(** X23. [quaternion_multiply] is associative, exceptions included:
    multiplying three lists in either grouping gives the same quaternion
    or the same [IndexError]. [[1, 0, 0, 0]], the orientation
    [remove_objects] resets to, is a unit on both sides. The order of the
    two arguments matters. *)
Theorem X23_quaternion_multiply_algebra (q1 q2 q3 : list R) (a b c d : R) :
  rbind (quaternion_multiply q1 q2) (fun q => quaternion_multiply q q3)
  = rbind (quaternion_multiply q2 q3) (fun q => quaternion_multiply q1 q)
  /\ quaternion_multiply [1; 0; 0; 0] [a; b; c; d] = Ok [a; b; c; d]
  /\ quaternion_multiply [a; b; c; d] [1; 0; 0; 0] = Ok [a; b; c; d]
  /\ quaternion_multiply [0; 1; 0; 0] [0; 0; 1; 0]
     <> quaternion_multiply [0; 0; 1; 0] [0; 1; 0; 0].
Proof.
  split; [|split; [|split]].
  - destruct (four_or_short q1) as [(a0 & a1 & a2 & a3 & r1 & ->)|H1];
      [destruct (four_or_short q2) as [(b0 & b1 & b2 & b3 & r2 & ->)|H2];
       [destruct (four_or_short q3) as [(c0 & c1 & c2 & c3 & r3 & ->)|H3]|]|].
    + rewrite !quaternion_multiply_four. simpl.
      rewrite !quaternion_multiply_four. repeat (f_equal; try ring).
    + rewrite quaternion_multiply_four. simpl.
      rewrite !(quaternion_multiply_short _ q3) by now right. reflexivity.
    + rewrite (quaternion_multiply_short _ q2) by now right. simpl.
      destruct (quaternion_multiply q2 q3) as [q|e] eqn:Hq; simpl.
      * exfalso. destruct (four_or_short q3) as [(c0 & c1 & c2 & c3 & r3 & ->)|H3].
        -- rewrite quaternion_multiply_short in Hq by now left. discriminate.
        -- rewrite quaternion_multiply_short in Hq by now left. discriminate.
      * now rewrite (quaternion_multiply_raises _ _ _ Hq).
    + rewrite (quaternion_multiply_short q1 q2) by now left. simpl.
      destruct (quaternion_multiply q2 q3) as [q|e] eqn:Hq; simpl.
      * now rewrite quaternion_multiply_short by now left.
      * now rewrite (quaternion_multiply_raises _ _ _ Hq).
  - rewrite quaternion_multiply_four. repeat (f_equal; try lra).
  - rewrite quaternion_multiply_four. repeat (f_equal; try lra).
  - rewrite !quaternion_multiply_four. intros H.
    injection H as _ _ _ H. lra.
Qed.

(** X24. The norm of a product of two quaternions is the product of
    their norms; so [quaternion_multiply] of two unit quaternions is a
    unit quaternion. *)
Theorem X24_quaternion_multiply_norm (a0 a1 a2 a3 b0 b1 b2 b3 : R) :
  exists q,
    quaternion_multiply [a0; a1; a2; a3] [b0; b1; b2; b3] = Ok q
    /\ vector_norm q = vector_norm [a0; a1; a2; a3] * vector_norm [b0; b1; b2; b3].
Proof.
  rewrite quaternion_multiply_four. eexists. split; [reflexivity|].
  unfold vector_norm. rewrite <- sqrt_mult by apply dot_self_nonneg.
  f_equal. unfold dot. simpl. ring.
Qed.

Lemma quaternion_about_vertical (angle : R) :
  quaternion_about_axis angle (0, 0, 1) = [cos (angle / 2); 0; 0; sin (angle / 2)].
Proof.
  rewrite quaternion_about_axis_long
    by (rewrite vector_norm_vertical; apply _EPS_lt_1).
  cbv zeta. rewrite vector_norm_vertical. repeat (f_equal; try lra).
Qed.

(** X25. Turns about the vertical axis add up: the product of the
    quaternion [quaternion_about_axis] gives for the yaw [a] and the one
    for the yaw [b] is the one for the yaw [a + b]. This is how
    [load_scene] combines the orientation of its target with the
    orientation the placement recorded for an object. *)
Theorem X25_yaw_quaternions_compose (a b : R) :
  quaternion_multiply (quaternion_about_axis a (0, 0, 1))
                      (quaternion_about_axis b (0, 0, 1))
  = Ok (quaternion_about_axis (a + b) (0, 0, 1)).
Proof.
  rewrite !quaternion_about_vertical, quaternion_multiply_four.
  replace ((a + b) / 2) with (a / 2 + b / 2) by lra.
  rewrite cos_plus, sin_plus. repeat (f_equal; try ring).
Qed.

(** ** Fallbacks of [calc_distance_range] *)


